(** * audio-tool: prefix detection and rename planning

    A shallow embedding of [main.go] of baiyutang/audio-tool and the
    properties of its prefix detector, rename planner and confirmation
    step.

    Go strings are byte sequences: a filename is a [list byte], indexed and
    sliced by byte position exactly as [s[i]] and [s[:n]] do in the source.
    Lengths and loop indices are [nat]; the one variable of the source that
    takes a negative value, [lastSep], is a [Z]. *)

From Stdlib Require Import Strings.String Strings.Ascii Strings.Byte.
From Stdlib Require Import List Arith ZArith Lia Bool Permutation.
Import ListNotations.

(** ** Go strings *)

Definition bytes := list byte.

(** A string literal as the bytes of its UTF-8 text. *)
Definition B (s : string) : bytes := list_byte_of_string s.

(** [s[i]]; the source only indexes inside the string. *)
Definition idx (s : bytes) (i : nat) : byte := nth i s x00.

(** [s[:n]] *)
Definition slice_to (s : bytes) (n : nat) : bytes := firstn n s.

(** [s[n:]] *)
Definition slice_from (s : bytes) (n : nat) : bytes := skipn n s.

Fixpoint bytes_eqb (a b : bytes) : bool :=
  match a, b with
  | [], [] => true
  | x :: a', y :: b' => Byte.eqb x y && bytes_eqb a' b'
  | _, _ => false
  end.

(** [strings.HasPrefix]: [len(s) >= len(prefix) && s[:len(prefix)] == prefix] *)
Definition HasPrefix (s prefix : bytes) : bool :=
  (length prefix <=? length s) && bytes_eqb (slice_to s (length prefix)) prefix.

(** [strings.TrimPrefix] *)
Definition TrimPrefix (s prefix : bytes) : bytes :=
  if HasPrefix s prefix then slice_from s (length prefix) else s.

(** ** Separator scan

    The backward loop of lines 62-74 of [findCommonPrefix]; lines 116-128
    of [findMajorityPrefix] repeat it byte for byte on [potentialPrefix].
    [sepLoop prefix n] runs the iterations [i = n-1, ..., 0] and yields
    [lastSep]. *)

Definition isSepByte (ch : byte) : bool :=
  match ch with
  | x2d (* - *) | x5f (* _ *) | x20 (* space *) | x29 (* ) *) | x5d (* ] *) => true
  | _ => false
  end.

(** The test of line 70: the bytes at [i-2, i-1, i] are E3 80 91. *)
Definition isBracketAt (prefix : bytes) (i : nat) : bool :=
  (2 <=? i) && Byte.eqb (idx prefix (i - 2)) xe3
            && Byte.eqb (idx prefix (i - 1)) x80
            && Byte.eqb (idx prefix i) x91.

Definition isSepAt (prefix : bytes) (i : nat) : bool :=
  isSepByte (idx prefix i) || isBracketAt prefix i.

Fixpoint sepLoop (prefix : bytes) (n : nat) : Z :=
  match n with
  | 0 => -1
  | S i =>
      if isSepByte (idx prefix i) then Z.of_nat (i + 1)
      else if isBracketAt prefix i then Z.of_nat (i + 1)
      else sepLoop prefix i
  end.

Definition lastSepOf (prefix : bytes) : Z := sepLoop prefix (length prefix).

(** Lines 76-80: what [findCommonPrefix] does with its raw candidate. *)
Definition trimAtSeparator (prefix : bytes) : bytes :=
  let lastSep := lastSepOf prefix in
  if (0 <? lastSep)%Z && (lastSep <? Z.of_nat (length prefix))%Z
  then slice_to prefix (Z.to_nat lastSep)
  else prefix.

(** ** findCommonPrefix *)

(** Lines 28-33. *)
Definition minLenOf (strs : list bytes) : nat :=
  fold_left (fun minLen s => if length s <? minLen then length s else minLen)
            strs (length (hd [] strs)).

(** Lines 40-45: every string has [char] at position [i]. *)
Definition allMatch (strs : list bytes) (i : nat) (char : byte) : bool :=
  forallb (fun s => Byte.eqb (idx s i) char) strs.

(** Lines 37-51, with [n] iterations left before [i] reaches [minLen]. *)
Fixpoint prefixLoop (strs : list bytes) (n i prefixLen : nat) : nat :=
  match n with
  | 0 => prefixLen
  | S n' =>
      let char := idx (hd [] strs) i in
      if allMatch strs i char
      then prefixLoop strs n' (i + 1) (i + 1)
      else prefixLen
  end.

Definition rawPrefixLen (strs : list bytes) : nat :=
  prefixLoop strs (minLenOf strs) 0 0.

(** The raw candidate of line 58. *)
Definition rawPrefix (strs : list bytes) : bytes :=
  slice_to (hd [] strs) (rawPrefixLen strs).

Definition findCommonPrefix (strs : list bytes) : bytes :=
  match strs with
  | [] => []
  | [_] => []
  | _ =>
      let prefixLen := rawPrefixLen strs in
      if prefixLen =? 0 then []
      else trimAtSeparator (slice_to (hd [] strs) prefixLen)
  end.

(** ** strings.TrimSpace

    [strings.TrimSpace] removes the leading and then the trailing runes
    with [unicode.IsSpace]: the six ASCII ones and U+0085, U+00A0, U+1680,
    U+2000..U+200A, U+2028, U+2029, U+202F, U+205F, U+3000.  A valid UTF-8
    encoding is the only byte sequence decoding to its rune, and a byte that
    does not start a valid encoding decodes to U+FFFD (width 1), which is
    not a space; so trimming is removing these encodings from either end. *)

Definition isAsciiSpace (b : byte) : bool :=
  match b with
  | x09 | x0a | x0b | x0c | x0d | x20 => true
  | _ => false
  end.

(** U+0085 = C2 85, U+00A0 = C2 A0 *)
Definition isSpace2 (b0 b1 : byte) : bool :=
  match b0, b1 with
  | xc2, x85 | xc2, xa0 => true
  | _, _ => false
  end.

(** U+1680 = E1 9A 80, U+2000..U+200A = E2 80 80..8A, U+2028 = E2 80 A8,
    U+2029 = E2 80 A9, U+202F = E2 80 AF, U+205F = E2 81 9F,
    U+3000 = E3 80 80 *)
Definition isSpace3 (b0 b1 b2 : byte) : bool :=
  match b0, b1, b2 with
  | xe1, x9a, x80 => true
  | xe2, x80, (x80 | x81 | x82 | x83 | x84 | x85 | x86 | x87 | x88 | x89 | x8a) => true
  | xe2, x80, (xa8 | xa9 | xaf) => true
  | xe2, x81, x9f => true
  | xe3, x80, x80 => true
  | _, _, _ => false
  end.

Fixpoint TrimLeftSpace (s : bytes) : bytes :=
  match s with
  | [] => []
  | b0 :: t0 =>
      if isAsciiSpace b0 then TrimLeftSpace t0 else
      match t0 with
      | [] => s
      | b1 :: t1 =>
          if isSpace2 b0 b1 then TrimLeftSpace t1 else
          match t1 with
          | [] => s
          | b2 :: t2 => if isSpace3 b0 b1 b2 then TrimLeftSpace t2 else s
          end
      end
  end.

(** The same scan from the end, on the reversed string: [b0] is the last
    byte, [b1] the one before it. *)
Fixpoint trimRevSpace (r : bytes) : bytes :=
  match r with
  | [] => []
  | b0 :: t0 =>
      if isAsciiSpace b0 then trimRevSpace t0 else
      match t0 with
      | [] => r
      | b1 :: t1 =>
          if isSpace2 b1 b0 then trimRevSpace t1 else
          match t1 with
          | [] => r
          | b2 :: t2 => if isSpace3 b2 b1 b0 then trimRevSpace t2 else r
          end
      end
  end.

Definition TrimRightSpace (s : bytes) : bytes := rev (trimRevSpace (rev s)).

Definition TrimSpace (s : bytes) : bytes := TrimRightSpace (TrimLeftSpace s).

(** ** strings.ToLower

    On ASCII text [strings.ToLower] adds ['a' - 'A'] to the bytes in
    ['A'..'Z'].  Bytes from 0x80 up are kept here as they are; Go maps the
    runes they encode through [unicode.ToLower], which sends no rune other
    than the ASCII capitals to an ASCII ['y'], ['e'] or ['s']. *)

Definition lowerByte (c : byte) : byte :=
  let n := Byte.to_N c in
  if (65 <=? n)%N && (n <=? 90)%N
  then match Byte.of_N (n + 32) with Some c' => c' | None => c end
  else c.

Definition ToLower (s : bytes) : bytes := map lowerByte s.

(** ** The float64 arithmetic of line 91

    [threshold := int(float64(len(strs)) * 0.7)] is IEEE-754 binary64
    arithmetic.  A non-negative binary64 value is [mant * 2^expo] with
    [mant < 2^53]; [round64] is rounding to nearest, ties to even, of an
    exact [m * 2^e].  No value here is subnormal or overflows. *)

Record float64 := { mant : Z; expo : Z }.

Local Open Scope Z_scope.

Definition round64 (m e : Z) : float64 :=
  let bits := if m =? 0 then 0 else Z.log2 m + 1 in
  let sh := bits - 53 in
  if sh <=? 0 then {| mant := m; expo := e |}
  else
    let q := Z.shiftr m sh in
    let r := Z.land m (Z.ones sh) in
    let half := Z.shiftl 1 (sh - 1) in
    let q' := if (half <? r) || ((r =? half) && Z.odd q) then q + 1 else q in
    {| mant := q'; expo := e + sh |}.

(** [float64(n)] for an [int] [n >= 0] *)
Definition float64_of_int (n : Z) : float64 := round64 n 0.

(** The constant [0.7] as a float64: 0x3FE6666666666666, that is
    0x16666666666666 * 2^-53. *)
Definition float64_0_7 : float64 := {| mant := 6305039478318694; expo := -53 |}.

Definition float64_mul (x y : float64) : float64 :=
  round64 (mant x * mant y) (expo x + expo y).

(** [int(f)]: truncation toward zero, here of a non-negative value. *)
Definition int_of_float64 (f : float64) : Z :=
  if 0 <=? expo f then Z.shiftl (mant f) (expo f)
  else Z.shiftr (mant f) (- expo f).

(** Lines 91-94. *)
Definition thresholdOf (n : nat) : Z :=
  let threshold := int_of_float64 (float64_mul (float64_of_int (Z.of_nat n)) float64_0_7) in
  if threshold <? 2 then 2 else threshold.

(** ** findMajorityPrefix *)

(** Lines 106-111. *)
Definition matchCountOf (strs : list bytes) (potentialPrefix : bytes) : nat :=
  List.length (filter (fun s => HasPrefix s potentialPrefix) strs).

(** Lines 116-136, the block run for a candidate that passed the test of
    line 114: the prefix it installs as [bestPrefix], if any. *)
Definition acceptedPrefix (potentialPrefix : bytes) : option bytes :=
  let lastSep := lastSepOf potentialPrefix in
  if (0 <? lastSep) && (lastSep <? Z.of_nat (List.length potentialPrefix))
  then
    let finalPrefix := slice_to potentialPrefix (Z.to_nat lastSep) in
    if (3 <=? List.length (TrimSpace finalPrefix))%nat then Some finalPrefix else None
  else None.

(** The state of the two loops: [(bestPrefix, bestMatchCount)]. *)
Definition best := (bytes * nat)%type.

(** Lines 103-137: one iteration of the inner loop. *)
Definition tryCandidate (strs : list bytes) (threshold : Z)
           (potentialPrefix : bytes) (st : best) : best :=
  let matchCount := matchCountOf strs potentialPrefix in
  if (threshold <=? Z.of_nat matchCount) && (snd st <? matchCount)%nat
  then match acceptedPrefix potentialPrefix with
       | Some finalPrefix => (finalPrefix, matchCount)
       | None => st
       end
  else st.

(** Lines 102-138: [length] runs from [len(sourceFile)] down to 3. *)
Fixpoint lengthLoop (strs : list bytes) (threshold : Z) (sourceFile : bytes)
         (length : nat) (st : best) : best :=
  match length with
  | O => st
  | S length' =>
      if (3 <=? length)%nat
      then lengthLoop strs threshold sourceFile length'
                      (tryCandidate strs threshold (slice_to sourceFile length) st)
      else st
  end.

(** Lines 100-139. *)
Definition sourceLoop (strs : list bytes) (threshold : Z)
           (sources : list bytes) (st : best) : best :=
  fold_left (fun st sourceFile =>
               lengthLoop strs threshold sourceFile (List.length sourceFile) st)
            sources st.

Definition findMajorityPrefix (strs : list bytes) : bytes :=
  if (List.length strs <? 2)%nat then []
  else fst (sourceLoop strs (thresholdOf (List.length strs)) strs ([], O)).

Local Close Scope Z_scope.

(** ** processDirectory

    What [processDirectory] prints, one constructor per [fmt.Printf] /
    [fmt.Println] of the source, with the values it formats. *)

Inductive output : Type :=
| DirectoryLine (dir : bytes)                  (* line 220 *)
| PrefixFound (prefix : bytes) (len : nat)     (* line 221 *)
| FileCount (total matching : nat)             (* line 230 *)
| ExampleFilename (name : bytes)               (* line 234 *)
| BlankLine                                    (* line 236 *)
| WarningEmptyName (oldName : bytes)           (* line 254 *)
| PreviewHeader                                (* line 274 *)
| PreviewEntry (oldName newName : bytes)       (* line 280 *)
| MoreFiles (n : nat)                          (* line 283 *)
| PreviewMode                                  (* line 287 *)
| Prompt (n : nat)                             (* line 294 *)
| SkippedDirectory                             (* line 305 *)
| RenameFailed (oldName : bytes)               (* line 314 *)
| RenamedSummary (successCount total : nat).   (* line 320 *)

(** The [RenamePlan] struct of lines 240-245. *)
Record RenamePlan : Type := {
  OldPath : bytes;
  NewPath : bytes;
  OldName : bytes;
  NewName : bytes
}.

(** [bufio.Reader.ReadString(delim)]: the bytes up to and including the
    first [delim]; without one, everything read and an error ([false]). *)
Fixpoint ReadString (delim : byte) (input : bytes) : bytes * bool :=
  match input with
  | [] => ([], false)
  | b :: rest =>
      if Byte.eqb b delim then ([b], true)
      else let (line, ok) := ReadString delim rest in (b :: line, ok)
  end.

(** Lines 300-301. *)
Definition isAffirmative (response : bytes) : bool :=
  let response := ToLower (TrimSpace response) in
  bytes_eqb response (B "y") || bytes_eqb response (B "yes").

(** Lines 210-218: [None] is the [return nil] of line 216. *)
Definition detectPrefix (filenames : list bytes) : option bytes :=
  let prefix := findCommonPrefix filenames in
  if bytes_eqb prefix [] || (List.length (TrimSpace prefix) <? 3) then
    let prefix := findMajorityPrefix filenames in
    if bytes_eqb prefix [] || (List.length (TrimSpace prefix) <? 3) then None
    else Some prefix
  else Some prefix.

Section Driver.

(** [path/filepath] and [os] belong to the Go library and the operating
    system: [Base] is [filepath.Base], [Join] is [filepath.Join] on two
    elements, and [osRename] is [os.Rename] acting on a file system
    [FS], returning whether its error is [nil]. *)
Variable Base : bytes -> bytes.
Variable Join : bytes -> bytes -> bytes.
Variable FS : Type.
Variable osRename : FS -> bytes -> bytes -> FS * bool.

(** Lines 249-251. *)
Definition newNameOf (prefix file : bytes) : bytes :=
  TrimSpace (TrimPrefix (Base file) prefix).

(** Lines 248-267: one iteration, on the plans and the lines printed. *)
Definition planStep (dir prefix : bytes)
           (st : list RenamePlan * list output) (file : bytes)
  : list RenamePlan * list output :=
  let oldName := Base file in
  let newName := TrimPrefix oldName prefix in
  let newName := TrimSpace newName in
  if bytes_eqb newName [] then (fst st, snd st ++ [WarningEmptyName oldName])
  else if negb (bytes_eqb oldName newName) then
    let newPath := Join dir newName in
    (fst st ++ [{| OldPath := file; NewPath := newPath;
                   OldName := oldName; NewName := newName |}], snd st)
  else st.

Definition buildPlans (dir prefix : bytes) (files : list bytes)
  : list RenamePlan * list output :=
  fold_left (planStep dir prefix) files ([], []).

(** Lines 274-284. *)
Definition preview (plans : list RenamePlan) : list output :=
  let displayCount := if List.length plans <? 5 then List.length plans else 5 in
  [PreviewHeader]
    ++ map (fun p => PreviewEntry (OldName p) (NewName p)) (firstn displayCount plans)
    ++ (if displayCount <? List.length plans
        then [MoreFiles (List.length plans - displayCount)] else []).

(** Lines 310-320: the file system, [successCount] and the lines printed. *)
Definition renameStep (st : FS * nat * list output) (plan : RenamePlan)
  : FS * nat * list output :=
  let '(fs, successCount, out) := st in
  let (fs', ok) := osRename fs (OldPath plan) (NewPath plan) in
  if ok then (fs', successCount + 1, out)
  else (fs', successCount, out ++ [RenameFailed (OldName plan)]).

Definition executePlans (fs : FS) (plans : list RenamePlan) : FS * list output :=
  let '(fs', successCount, out) := fold_left renameStep plans (fs, 0, []) in
  (fs', out ++ [RenamedSummary successCount (List.length plans)]).

(** The outcome of a call: what was printed, the file system it leaves,
    and whether the returned [error] is [nil]. *)
Record outcome : Type := {
  printed : list output;
  fs_after : FS;
  err_nil : bool
}.

(** Lines 292-321, after the preview. *)
Definition confirmAndRun (autoYes : bool) (stdin : bytes) (fs : FS)
           (plans : list RenamePlan) (out : list output) : outcome :=
  let '(proceed, out, ok) :=
    if negb autoYes then
      let out := out ++ [Prompt (List.length plans)] in
      let (response, ok) := ReadString x0a stdin in
      if ok then (isAffirmative response, out, true) else (false, out, false)
    else (autoYes, out, true) in
  if negb ok then {| printed := out; fs_after := fs; err_nil := false |}
  else if negb proceed then
    {| printed := out ++ [SkippedDirectory]; fs_after := fs; err_nil := true |}
  else
    let (fs', out') := executePlans fs plans in
    {| printed := out ++ out'; fs_after := fs'; err_nil := true |}.

Definition processDirectory (dir : bytes) (files : list bytes)
           (dryRun autoYes : bool) (stdin : bytes) (fs : FS) : outcome :=
  if List.length files <? 2 then {| printed := []; fs_after := fs; err_nil := true |}
  else
    let filenames := map Base files in
    match detectPrefix filenames with
    | None => {| printed := []; fs_after := fs; err_nil := true |}
    | Some prefix =>
        let matchCount := matchCountOf filenames prefix in
        let out :=
          [DirectoryLine dir; PrefixFound prefix (List.length prefix);
           FileCount (List.length files) matchCount;
           match filenames with
           | name :: _ => ExampleFilename name
           | [] => BlankLine
           end] in
        let (plans, warnings) := buildPlans dir prefix files in
        let out := out ++ warnings in
        if List.length plans =? 0
        then {| printed := out; fs_after := fs; err_nil := true |}
        else
          let out := out ++ preview plans in
          if dryRun
          then {| printed := out ++ [PreviewMode]; fs_after := fs; err_nil := true |}
          else confirmAndRun autoYes stdin fs plans out
    end.

End Driver.

Arguments printed {FS} _.
Arguments fs_after {FS} _.
Arguments err_nil {FS} _.
Arguments processDirectory Base Join {FS} osRename dir files dryRun autoYes stdin fs.
Arguments confirmAndRun {FS} osRename autoYes stdin fs plans out.
Arguments executePlans {FS} osRename fs plans.
Arguments renameStep {FS} osRename st plan.

(** [filepath.Base] on a Unix path: trailing slashes dropped, then the text
    after the last slash; ["."] for the empty path and ["/"] for a path of
    slashes only. *)
Fixpoint dropSlashes (r : bytes) : bytes :=
  match r with
  | x2f :: r' => dropSlashes r'
  | _ => r
  end.

Fixpoint lastElemRev (r : bytes) : bytes :=
  match r with
  | [] => []
  | x2f :: _ => []
  | b :: r' => b :: lastElemRev r'
  end.

Definition unixBase (path : bytes) : bytes :=
  match path with
  | [] => B "."
  | _ =>
      match rev (lastElemRev (dropSlashes (rev path))) with
      | [] => B "/"
      | name => name
      end
  end.

(** A file system that only records the renames requested of it, each of
    which succeeds. *)
Definition renameLog := list (bytes * bytes).

Definition logRename (fs : renameLog) (old new : bytes) : renameLog * bool :=
  (fs ++ [(old, new)], true).

(** ** groupFilesByDirectory

    A Go [map[string][]string] as the list of its key/value pairs, each key
    once.  Go leaves the iteration order of a map unspecified, so the
    properties below speak of lookups and of the set of keys only. *)

Definition dirMap := list (bytes * list bytes).

(** [m[key]]: the zero value, a nil slice, for a missing key. *)
Fixpoint mapLookup (m : dirMap) (key : bytes) : list bytes :=
  match m with
  | [] => []
  | (k, v) :: m' => if bytes_eqb k key then v else mapLookup m' key
  end.

(** [m[key] = value] *)
Fixpoint mapStore (m : dirMap) (key : bytes) (value : list bytes) : dirMap :=
  match m with
  | [] => [(key, value)]
  | (k, v) :: m' =>
      if bytes_eqb k key then (k, value) :: m' else (k, v) :: mapStore m' key value
  end.

(** Lines 188-195; [Dir] is [filepath.Dir]. *)
Definition groupFilesByDirectory (Dir : bytes -> bytes) (files : list bytes) : dirMap :=
  fold_left (fun groups file =>
               let dir := Dir file in
               mapStore groups dir (mapLookup groups dir ++ [file]))
            files [].

(** ** collectFiles *)

(** [filepath.Ext]: the suffix starting at the last dot of the last element
    of the path, empty when there is none.  [extRev] scans the reversed
    path, [seen] being the bytes already passed. *)
Fixpoint extRev (r seen : bytes) : bytes :=
  match r with
  | [] => []
  | b :: r' =>
      if Byte.eqb b x2f then []
      else if Byte.eqb b x2e then b :: seen
      else extRev r' (b :: seen)
  end.

Definition Ext (path : bytes) : bytes := extRev (rev path) [].

(** What the function passed to [filepath.Walk] returns: [nil],
    [filepath.SkipDir], or the error it was handed. *)
Inductive walkError : Type := ErrNil | ErrSkipDir | ErrOther.

(** A file tree as [filepath.Walk] meets it: a file, a directory with its
    entries in the lexical order [Walk] reads them in ([unreadable] when
    reading its names fails), or an entry on which [os.Lstat] fails. *)
#[warnings="-register-all"]
Inductive node : Type :=
| FileNode (name : bytes)
| DirNode (name : bytes) (unreadable : bool) (entries : list node)
| BrokenNode (name : bytes).

Definition nodeName (n : node) : bytes :=
  match n with
  | FileNode name => name
  | DirNode name _ _ => name
  | BrokenNode name => name
  end.

Section Walker.

(** [lower] is [strings.ToLower]: extensions may hold any text, so it is a
    parameter here; [Base] and [Join] are those of [path/filepath]. *)
Variable lower : bytes -> bytes.
Variable Base : bytes -> bytes.
Variable Join : bytes -> bytes -> bytes.

(** Lines 151-154: the key stored for one extension. *)
Definition extKey (ext : bytes) : bytes :=
  lower (if HasPrefix ext (B ".") then ext else B "." ++ ext).

(** Lines 149-155: the keys of [extMap], every value being [true]. *)
Definition buildExtMap (extensions : list bytes) : list bytes :=
  map extKey extensions.

Variable excludeDirs : list bytes.
Variable extMap : list bytes.

(** Lines 157-183: the function passed to [filepath.Walk], on the [files]
    collected so far; [isDir] is [info.IsDir()] and [err] is [err != nil]. *)
Definition visit (files : list bytes) (path : bytes) (isDir err : bool)
  : list bytes * walkError :=
  if err then (files, ErrOther)
  else if isDir then
    let dirName := Base path in
    if existsb (fun excludeDir => bytes_eqb dirName excludeDir) excludeDirs
    then (files, ErrSkipDir)
    else (files, ErrNil)
  else if (0 <? length extMap)
          && negb (existsb (bytes_eqb (lower (Ext path))) extMap)
  then (files, ErrNil)
  else (files ++ [path], ErrNil).

(** [filepath.Walk]'s recursion: a directory's names are read before the
    function is called on it; the function is then called on each entry, a
    [SkipDir] returned for a directory or for an entry that cannot be
    stat'ed being passed over, any other error ending the walk. *)
Fixpoint walk (path : bytes) (n : node) (files : list bytes) : list bytes * walkError :=
  match n with
  | FileNode _ => visit files path false false
  | BrokenNode _ => visit files path false true
  | DirNode _ unreadable entries =>
      let (files1, err1) := visit files path true unreadable in
      match unreadable, err1 with
      | false, ErrNil =>
          (fix walkEntries (l : list node) (files : list bytes) : list bytes * walkError :=
             match l with
             | [] => (files, ErrNil)
             | child :: rest =>
                 let (files', err) := walk (Join path (nodeName child)) child files in
                 match err, child with
                 | ErrNil, _ => walkEntries rest files'
                 | ErrSkipDir, DirNode _ _ _ => walkEntries rest files'
                 | ErrSkipDir, BrokenNode _ => walkEntries rest files'
                 | _, _ => (files', err)
                 end
             end) entries files1
      | _, _ => (files1, err1)
      end
  end.

(** The loop of [walk] over the entries of the directory at [path], as a
    function of its own. *)
Fixpoint walkEntries (path : bytes) (l : list node) (files : list bytes)
  : list bytes * walkError :=
  match l with
  | [] => (files, ErrNil)
  | child :: rest =>
      let (files', err) := walk (Join path (nodeName child)) child files in
      match err, child with
      | ErrNil, _ => walkEntries path rest files'
      | ErrSkipDir, DirNode _ _ _ => walkEntries path rest files'
      | ErrSkipDir, BrokenNode _ => walkEntries path rest files'
      | _, _ => (files', err)
      end
  end.

End Walker.

(** Lines 145-185: the files collected under [root], whose tree is [tree],
    and whether the error returned is [nil]. *)
Definition collectFiles (lower Base : bytes -> bytes) (Join : bytes -> bytes -> bytes)
           (root : bytes) (tree : node) (excludeDirs extensions : list bytes)
  : list bytes * bool :=
  let extMap := buildExtMap lower extensions in
  let (files, err) := walk lower Base Join excludeDirs extMap root tree [] in
  (files, match err with ErrOther => false | _ => true end).

(** ** Vocabulary of the properties *)

(** [p] is a byte-prefix of [s]. *)
Definition isPrefixOf (p s : bytes) : Prop := exists t, s = p ++ t.

(** [r] ends in a separator: its last byte is one of [- _ space ) ]], or
    its last three bytes are E3 80 91. *)
Definition endsInSeparator (r : bytes) : Prop :=
  (exists pre c, r = pre ++ [c]
                 /\ (c = x2d \/ c = x5f \/ c = x20 \/ c = x29 \/ c = x5d))
  \/ (exists pre, r = pre ++ [xe3; x80; x91]).

(** [c] is one of the candidates [findMajorityPrefix] forms from [strs]:
    [sourceFile[:length]] for a [sourceFile] of [strs] and
    [3 <= length <= len(sourceFile)]. *)
Definition isCandidate (strs : list bytes) (c : bytes) : Prop :=
  exists sourceFile len,
    In sourceFile strs /\ 3 <= len <= length sourceFile /\ c = slice_to sourceFile len.

(** A candidate qualifies when its match count reaches the threshold. *)
Definition qualifies (strs : list bytes) (c : bytes) : Prop :=
  (thresholdOf (length strs) <= Z.of_nat (matchCountOf strs c))%Z.

(** No two of the strings, taken at different positions, share a prefix of
    3 bytes or more. *)
Definition noSharedPrefix3 (strs : list bytes) : Prop :=
  forall i j p, i < j < length strs -> 3 <= length p ->
    ~ (isPrefixOf p (nth i strs []) /\ isPrefixOf p (nth j strs [])).

(** The invariant of the two loops: [bestPrefix] is empty, or it is what
    the block of lines 116-136 made of a candidate that qualified, and
    [bestMatchCount] is that candidate's match count. *)
Definition bestFromCandidate (strs : list bytes) (threshold : Z) (st : best) : Prop :=
  st = ([], 0)
  \/ exists c, isCandidate strs c
               /\ (threshold <= Z.of_nat (matchCountOf strs c))%Z
               /\ acceptedPrefix c = Some (fst st)
               /\ snd st = matchCountOf strs c.

(** A directory of 90 files: 62 named [Artist-SongNN.mp3] and 28 named
    [NN-Other.mp3]. *)
Definition digitByte (d : nat) : byte :=
  match Byte.of_N (48 + N.of_nat d) with Some b => b | None => x30 end.

Definition twoDigits (n : nat) : bytes := [digitByte (n / 10); digitByte (n mod 10)].

Definition ninetyFiles : list bytes :=
  map (fun n => B "Artist-Song" ++ twoDigits n ++ B ".mp3") (seq 0 62)
  ++ map (fun n => twoDigits n ++ B "-Other.mp3") (seq 62 28).

(** [filepath.Join(dir, name)] for a cleaned directory path other than the
    root and a plain file name: the two joined by a slash. *)
Definition slashJoin (dir name : bytes) : bytes := dir ++ B "/" ++ name.

(** A directory [/m] with two files starting with [Artist-] and a third
    one, [ x.mp3], whose name starts with a space. *)
Definition artistFiles : list bytes :=
  [B "/m/Artist-Song1.mp3"; B "/m/Artist-Song2.mp3"; B "/m/ x.mp3"].

(** The calls of [os.Rename] that executing a plan leads to, in order, each
    with whether it succeeded; the file system is threaded through them. *)
Fixpoint renameOutcomes {FS : Type} (osRename : FS -> bytes -> bytes -> FS * bool)
         (fs : FS) (plans : list RenamePlan) : list (RenamePlan * bool) :=
  match plans with
  | [] => []
  | plan :: rest =>
      let (fs', ok) := osRename fs (OldPath plan) (NewPath plan) in
      (plan, ok) :: renameOutcomes osRename fs' rest
  end.


Section TreeVocabulary.

Variable Base : bytes -> bytes.
Variable Join : bytes -> bytes -> bytes.
Variable excludeDirs : list bytes.

(** The directory at [path] bears an excluded name. *)
Definition excludedDir (path : bytes) : bool :=
  existsb (fun excludeDir => bytes_eqb (Base path) excludeDir) excludeDirs.


(** The tree with every excluded directory emptied. *)
Fixpoint prune (path : bytes) (n : node) : node :=
  match n with
  | DirNode name unreadable entries =>
      if excludedDir path then DirNode name unreadable []
      else DirNode name unreadable
                   (map (fun child => prune (Join path (nodeName child)) child) entries)
  | _ => n
  end.

End TreeVocabulary.


(** A music folder with a thumbnail directory [@eaDir] in which one entry
    cannot be stat'ed. *)
Definition musicTree : node :=
  DirNode (B "music") false
    [DirNode (B "@eaDir") false [BrokenNode (B "lost"); FileNode (B "thumb.jpg")];
     FileNode (B "readme.txt");
     FileNode (B "song1.MP3");
     DirNode (B "subdir") false [FileNode (B "song4.mp3")]].

(** * Properties *)

(** ** Byte strings *)

Lemma bytes_eqb_eq (a b : bytes) : bytes_eqb a b = true <-> a = b.
Proof.
  revert b; induction a as [|x a IH]; intros [|y b]; simpl; split;
    try discriminate; try reflexivity; intro H.
  - apply andb_true_iff in H as [Hx Hab].
    apply Byte.byte_dec_bl in Hx. apply IH in Hab. congruence.
  - injection H as -> ->. apply andb_true_iff; split.
    + apply Byte.byte_dec_lb; reflexivity.
    + apply IH; reflexivity.
Qed.

Lemma bytes_eqb_refl (a : bytes) : bytes_eqb a a = true.
Proof. apply bytes_eqb_eq; reflexivity. Qed.

Lemma bytes_eqb_neq (a b : bytes) : bytes_eqb a b = false <-> a <> b.
Proof.
  split.
  - intros H E. apply bytes_eqb_eq in E. congruence.
  - intro H. destruct (bytes_eqb a b) eqn:E; [|reflexivity].
    apply bytes_eqb_eq in E. contradiction.
Qed.

Lemma byte_eqb_eq (x y : byte) : Byte.eqb x y = true <-> x = y.
Proof.
  split; [apply Byte.byte_dec_bl | apply Byte.byte_dec_lb].
Qed.

Lemma HasPrefix_iff (s p : bytes) : HasPrefix s p = true <-> isPrefixOf p s.
Proof.
  unfold HasPrefix, isPrefixOf, slice_to. split.
  - intro H. apply andb_true_iff in H as [_ H]. apply bytes_eqb_eq in H.
    exists (skipn (length p) s). rewrite <- H at 1. symmetry; apply firstn_skipn.
  - intros [t ->]. apply andb_true_iff; split.
    + apply Nat.leb_le. rewrite length_app. lia.
    + apply bytes_eqb_eq. rewrite firstn_app, Nat.sub_diag, firstn_all. simpl.
      apply app_nil_r.
Qed.

Lemma isPrefixOf_length (p s : bytes) : isPrefixOf p s -> length p <= length s.
Proof. intros [t ->]. rewrite length_app. lia. Qed.

Lemma isPrefixOf_firstn (s : bytes) (n : nat) : isPrefixOf (firstn n s) s.
Proof. exists (skipn n s). symmetry; apply firstn_skipn. Qed.

Lemma isPrefixOf_trans (a b c : bytes) : isPrefixOf a b -> isPrefixOf b c -> isPrefixOf a c.
Proof. intros [t ->] [u ->]. exists (t ++ u). symmetry; apply app_assoc. Qed.

Lemma isPrefixOf_idx (p s : bytes) (i : nat) :
  isPrefixOf p s -> i < length p -> idx s i = idx p i.
Proof. intros [t ->] H. unfold idx. apply app_nth1; exact H. Qed.

Lemma firstn_succ_idx (s : bytes) (i : nat) :
  i < length s -> firstn (S i) s = firstn i s ++ [idx s i].
Proof.
  revert i; induction s as [|b s IH]; intros i H; simpl in H; [lia|].
  destruct i as [|i]; [reflexivity|].
  change (firstn (S (S i)) (b :: s)) with (b :: firstn (S i) s).
  rewrite IH by lia. reflexivity.
Qed.

(** Two strings that agree on their first [n] positions have the same
    slice [[:n]]. *)
Lemma firstn_ext (a b : bytes) (n : nat) :
  n <= length a -> n <= length b ->
  (forall j, j < n -> idx a j = idx b j) -> firstn n a = firstn n b.
Proof.
  revert a b; induction n as [|n IH]; intros a b Ha Hb H; [reflexivity|].
  destruct a as [|x a]; [simpl in Ha; lia|].
  destruct b as [|y b]; [simpl in Hb; lia|].
  simpl in *. f_equal.
  - apply (H 0). lia.
  - apply IH; try lia. intros j Hj. apply (H (S j)). lia.
Qed.

(** ** The separator scan *)

(** What the loop returns: [-1] when no position below [n] holds a
    separator, and else one more than the highest such position. *)
Lemma sepLoop_spec (p : bytes) (n : nat) :
  (sepLoop p n = (-1)%Z /\ forall i, i < n -> isSepAt p i = false)
  \/ (exists i, i < n /\ sepLoop p n = Z.of_nat (i + 1) /\ isSepAt p i = true
                /\ forall j, i < j < n -> isSepAt p j = false).
Proof.
  induction n as [|n IH]; simpl.
  - left. split; [reflexivity | intros i Hi; lia].
  - destruct (isSepByte (idx p n)) eqn:E1.
    + right. exists n. repeat split; try lia.
      unfold isSepAt. rewrite E1. reflexivity.
    + destruct (isBracketAt p n) eqn:E2.
      * right. exists n. repeat split; try lia.
        unfold isSepAt. rewrite E1, E2. reflexivity.
      * assert (En : isSepAt p n = false) by (unfold isSepAt; rewrite E1, E2; reflexivity).
        destruct IH as [[H0 Hall] | (i & Hi & Hv & Hs & Hmax)].
        -- left. split; [exact H0|]. intros i Hi.
           destruct (Nat.eq_dec i n) as [->|]; [exact En | apply Hall; lia].
        -- right. exists i. repeat split; try lia; try assumption.
           intros j Hj. destruct (Nat.eq_dec j n) as [->|]; [exact En | apply Hmax; lia].
Qed.

Lemma trimAtSeparator_prefix (p : bytes) : isPrefixOf (trimAtSeparator p) p.
Proof.
  unfold trimAtSeparator.
  destruct ((0 <? lastSepOf p)%Z && (lastSepOf p <? Z.of_nat (length p))%Z).
  - apply isPrefixOf_firstn.
  - exists []. symmetry; apply app_nil_r.
Qed.

(** The three outcomes of the trimming of lines 62-80. *)
Lemma trimAtSeparator_cases (p : bytes) :
  (forall i, i < length p -> isSepAt p i = true ->
             (forall j, i < j < length p -> isSepAt p j = false) ->
             trimAtSeparator p = if i + 1 <? length p then slice_to p (i + 1) else p)
  /\ ((forall i, i < length p -> isSepAt p i = false) -> trimAtSeparator p = p).
Proof.
  unfold trimAtSeparator, lastSepOf.
  destruct (sepLoop_spec p (length p)) as [[H0 Hall] | (k & Hk & Hv & Hs & Hmax)].
  - split.
    + intros i Hi Hsep _. rewrite Hall in Hsep by exact Hi. discriminate.
    + intros _. rewrite H0. reflexivity.
  - split.
    + intros i Hi Hsep Hlast.
      assert (i = k) as ->.
      { destruct (Nat.lt_trichotomy i k) as [Hlt | [Heq | Hgt]]; [| exact Heq |].
        - rewrite Hlast in Hs by lia. discriminate.
        - rewrite Hmax in Hsep by lia. discriminate. }
      rewrite Hv.
      replace (0 <? Z.of_nat (k + 1))%Z with true by (symmetry; apply Z.ltb_lt; lia).
      simpl. destruct (k + 1 <? length p) eqn:E.
      * apply Nat.ltb_lt in E.
        replace (Z.of_nat (k + 1) <? Z.of_nat (length p))%Z with true
          by (symmetry; apply Z.ltb_lt; lia).
        rewrite Nat2Z.id. reflexivity.
      * apply Nat.ltb_ge in E.
        replace (Z.of_nat (k + 1) <? Z.of_nat (length p))%Z with false
          by (symmetry; apply Z.ltb_ge; lia).
        reflexivity.
    + intro Hnone. rewrite Hnone in Hs by exact Hk. discriminate.
Qed.

(** ** findCommonPrefix *)

Lemma minLen_fold_le (strs : list bytes) (m : nat) :
  let r := fold_left (fun minLen s => if length s <? minLen then length s else minLen) strs m in
  r <= m /\ (forall s, In s strs -> r <= length s)
  /\ (r = m \/ exists s, In s strs /\ r = length s).
Proof.
  revert m; induction strs as [|a strs IH]; intro m; simpl.
  - split; [lia | split; [intros s [] | left; reflexivity]].
  - set (m' := if length a <? m then length a else m).
    assert (Hm' : m' <= m /\ m' <= length a /\ (m' = m \/ m' = length a)).
    { unfold m'. destruct (length a <? m) eqn:E;
        [apply Nat.ltb_lt in E | apply Nat.ltb_ge in E]; lia. }
    destruct (IH m') as (H1 & H2 & H3). split; [|split].
    + lia.
    + intros s [<- | Hs]; [lia | apply H2; exact Hs].
    + destruct H3 as [H3 | (s & Hs & H3)].
      * destruct Hm' as (_ & _ & [E | E]); [left; lia | right; exists a; split; [left; reflexivity | lia]].
      * right. exists s. split; [right; exact Hs | exact H3].
Qed.

(** [minLenOf] is the length of a shortest string of the sequence. *)
Lemma minLenOf_spec (strs : list bytes) :
  strs <> [] ->
  (forall s, In s strs -> minLenOf strs <= length s)
  /\ exists s, In s strs /\ minLenOf strs = length s.
Proof.
  intro Hne. unfold minLenOf.
  destruct (minLen_fold_le strs (length (hd [] strs))) as (H1 & H2 & H3).
  split; [exact H2|].
  destruct H3 as [H3 | H3]; [|exact H3].
  destruct strs as [|a strs]; [contradiction|].
  exists a. split; [left; reflexivity | exact H3].
Qed.

(** The forward loop stops at the first position where some string
    differs from [strs[0]], or at [minLen]. *)
Lemma prefixLoop_spec (strs : list bytes) (n i : nat) :
  (forall j, j < i -> allMatch strs j (idx (hd [] strs) j) = true) ->
  let L := prefixLoop strs n i i in
  i <= L <= i + n
  /\ (forall j, j < L -> allMatch strs j (idx (hd [] strs) j) = true)
  /\ (L = i + n \/ allMatch strs L (idx (hd [] strs) L) = false).
Proof.
  revert i; induction n as [|n IH]; intros i Hi; simpl.
  - split; [lia | split; [exact Hi | left; lia]].
  - destruct (allMatch strs i (idx (hd [] strs) i)) eqn:E.
    + destruct (IH (i + 1)) as (H1 & H2 & H3).
      { intros j Hj. destruct (Nat.eq_dec j i) as [->|]; [exact E | apply Hi; lia]. }
      split; [lia | split; [exact H2|]].
      destruct H3 as [H3 | H3]; [left; lia | right; exact H3].
    + split; [lia | split; [exact Hi | right; exact E]].
Qed.

Lemma allMatch_true (strs : list bytes) (i : nat) (c : byte) :
  allMatch strs i c = true <-> forall s, In s strs -> idx s i = c.
Proof.
  unfold allMatch. rewrite forallb_forall. split; intros H s Hs.
  - apply byte_eqb_eq, H, Hs.
  - apply byte_eqb_eq, H, Hs.
Qed.

Lemma allMatch_false (strs : list bytes) (i : nat) (c : byte) :
  allMatch strs i c = false -> exists s, In s strs /\ idx s i <> c.
Proof.
  unfold allMatch. induction strs as [|a strs IH]; simpl; [discriminate|].
  destruct (Byte.eqb (idx a i) c) eqn:E; simpl.
  - intro H. destruct (IH H) as (s & Hs & Hne). exists s. split; [right; exact Hs | exact Hne].
  - intros _. exists a. split; [left; reflexivity|].
    intro Heq. apply byte_eqb_eq in Heq. congruence.
Qed.

Lemma rawPrefixLen_le (strs : list bytes) : rawPrefixLen strs <= minLenOf strs.
Proof.
  unfold rawPrefixLen.
  destruct (prefixLoop_spec strs (minLenOf strs) 0) as (H & _); [intros j Hj; lia | lia].
Qed.

(** The raw candidate is a prefix of every string. *)
Lemma rawPrefix_common (strs : list bytes) (s : bytes) :
  In s strs -> isPrefixOf (rawPrefix strs) s.
Proof.
  intro Hs. assert (Hne : strs <> []) by (intro E; rewrite E in Hs; exact Hs).
  destruct (minLenOf_spec strs Hne) as (Hmin & _).
  pose proof (rawPrefixLen_le strs) as Hle.
  destruct (prefixLoop_spec strs (minLenOf strs) 0) as (_ & Hall & _); [intros j Hj; lia|].
  fold (rawPrefixLen strs) in Hall.
  unfold rawPrefix, slice_to.
  assert (Hhd : In (hd [] strs) strs) by (destruct strs; [contradiction | left; reflexivity]).
  rewrite (firstn_ext (hd [] strs) s (rawPrefixLen strs)).
  - apply isPrefixOf_firstn.
  - specialize (Hmin _ Hhd). lia.
  - specialize (Hmin _ Hs). lia.
  - intros j Hj. symmetry. apply (proj1 (allMatch_true strs j _) (Hall j Hj)). exact Hs.
Qed.

Lemma rawPrefix_length (strs : list bytes) :
  strs <> [] -> length (rawPrefix strs) = rawPrefixLen strs.
Proof.
  intro Hne. unfold rawPrefix, slice_to. apply firstn_length_le.
  destruct (minLenOf_spec strs Hne) as (Hmin & _).
  pose proof (rawPrefixLen_le strs).
  assert (Hhd : In (hd [] strs) strs) by (destruct strs; [contradiction | left; reflexivity]).
  specialize (Hmin _ Hhd). lia.
Qed.

(** ... and the longest one: every common prefix is a prefix of it. *)
Lemma rawPrefix_longest (strs : list bytes) (p : bytes) :
  strs <> [] -> (forall s, In s strs -> isPrefixOf p s) -> isPrefixOf p (rawPrefix strs).
Proof.
  intros Hne Hp.
  assert (Hhd : In (hd [] strs) strs) by (destruct strs; [contradiction | left; reflexivity]).
  destruct (minLenOf_spec strs Hne) as (Hmin & (m & Hm & Hmlen)).
  destruct (prefixLoop_spec strs (minLenOf strs) 0) as (_ & _ & Hstop); [intros j Hj; lia|].
  fold (rawPrefixLen strs) in Hstop.
  assert (Hlen : length p <= rawPrefixLen strs).
  { destruct Hstop as [Hfull | Hmis].
    - pose proof (isPrefixOf_length _ _ (Hp _ Hm)). lia.
    - destruct (Nat.le_gt_cases (length p) (rawPrefixLen strs)) as [|Hgt]; [assumption|].
      destruct (allMatch_false _ _ _ Hmis) as (s & Hs & Hne').
      exfalso. apply Hne'.
      rewrite (isPrefixOf_idx _ _ _ (Hp _ Hs) Hgt), (isPrefixOf_idx _ _ _ (Hp _ Hhd) Hgt). reflexivity. }
  destruct (Hp _ Hhd) as [t Ht].
  unfold rawPrefix, slice_to. rewrite Ht at 1.
  rewrite firstn_app.
  replace (firstn (rawPrefixLen strs) p) with p by (symmetry; apply firstn_all2; exact Hlen).
  eexists; reflexivity.
Qed.

Lemma findCommonPrefix_unfold (strs : list bytes) :
  2 <= length strs -> findCommonPrefix strs = trimAtSeparator (rawPrefix strs).
Proof.
  intro H. destruct strs as [|a [|b strs]]; simpl in H; try lia.
  unfold findCommonPrefix, rawPrefix.
  destruct (rawPrefixLen (a :: b :: strs) =? 0) eqn:E; [|reflexivity].
  apply Nat.eqb_eq in E. rewrite E. reflexivity.
Qed.

(** C6: for every sequence of 0 or 1 filenames, [findCommonPrefix] returns
    the empty string. *)
Theorem findCommonPrefix_fewer_than_two (strs : list bytes) :
  length strs <= 1 -> findCommonPrefix strs = [].
Proof.
  intro H. destruct strs as [|a [|b strs]]; simpl in H; [reflexivity | reflexivity | lia].
Qed.

Lemma findCommonPrefix_fewer_than_two_witness :
  findCommonPrefix [B "file.txt"] = [] /\ findCommonPrefix [] = [].
Proof.
  split.
  - apply (findCommonPrefix_fewer_than_two [B "file.txt"]). simpl. lia.
  - apply (findCommonPrefix_fewer_than_two []). simpl. lia.
Defined.

(** C10: for every sequence of at least 2 filenames, the string returned by
    [findCommonPrefix] is a byte-prefix of every filename of the sequence,
    and is no longer than any of them, so no longer than the shortest
    one, whose length is [minLenOf]. *)
Theorem findCommonPrefix_prefix_of_all (strs : list bytes) :
  2 <= length strs ->
  (forall s, In s strs ->
     isPrefixOf (findCommonPrefix strs) s
     /\ length (findCommonPrefix strs) <= length s)
  /\ length (findCommonPrefix strs) <= minLenOf strs
  /\ exists shortest, In shortest strs /\ minLenOf strs = length shortest
                      /\ forall s, In s strs -> length shortest <= length s.
Proof.
  intro H.
  assert (Hne : strs <> []) by (intro E; rewrite E in H; simpl in H; lia).
  rewrite (findCommonPrefix_unfold strs H).
  assert (Hpre : forall s, In s strs -> isPrefixOf (trimAtSeparator (rawPrefix strs)) s).
  { intros s Hs. eapply isPrefixOf_trans; [apply trimAtSeparator_prefix | apply rawPrefix_common; exact Hs]. }
  destruct (minLenOf_spec strs Hne) as (Hmin & (m & Hm & Hmlen)).
  split; [|split].
  - intros s Hs. split; [apply Hpre; exact Hs | apply isPrefixOf_length, Hpre, Hs].
  - rewrite Hmlen. apply isPrefixOf_length, Hpre, Hm.
  - exists m. split; [exact Hm | split; [exact Hmlen|]].
    intros s Hs. rewrite <- Hmlen. apply Hmin, Hs.
Qed.

Lemma findCommonPrefix_prefix_of_all_witness :
  isPrefixOf (findCommonPrefix [B "Common Prefix file1.mp3"; B "Common Prefix file2.mp3"])
             (B "Common Prefix file2.mp3")
  /\ length (findCommonPrefix [B "Common Prefix file1.mp3"; B "Common Prefix file2.mp3"])
     <= length (B "Common Prefix file2.mp3").
Proof.
  refine (proj1 (findCommonPrefix_prefix_of_all
                   [B "Common Prefix file1.mp3"; B "Common Prefix file2.mp3"] _)
                (B "Common Prefix file2.mp3") _).
  - simpl. lia.
  - simpl. right. left. reflexivity.
Defined.

(** C2: for every sequence of at least 2 filenames, [findCommonPrefix]
    first computes the byte-wise longest common prefix [raw]: a prefix of
    every filename that every common prefix is a prefix of, found by
    scanning the positions below the length of the shortest filename and
    stopping at the first position where some filename differs from the
    first one.  It then looks for the last position of [raw] holding a
    separator (one of [- _ space ) ]], or the last byte of E3 80 91): when
    there is one and it is not the final byte of [raw], the result is [raw]
    cut right after it; when there is none, the result is [raw] itself. *)
Theorem findCommonPrefix_lcp_then_trim (strs : list bytes) :
  2 <= length strs ->
  let raw := rawPrefix strs in
  (forall s, In s strs -> isPrefixOf raw s)
  /\ (forall p, (forall s, In s strs -> isPrefixOf p s) -> isPrefixOf p raw)
  /\ length raw <= minLenOf strs
  /\ (length raw = minLenOf strs
      \/ exists s, In s strs /\ idx s (length raw) <> idx (hd [] strs) (length raw))
  /\ (forall i, i < length raw -> isSepAt raw i = true ->
        (forall j, i < j < length raw -> isSepAt raw j = false) ->
        i + 1 < length raw ->
        findCommonPrefix strs = slice_to raw (i + 1))
  /\ ((forall i, i < length raw -> isSepAt raw i = false) ->
        findCommonPrefix strs = raw).
Proof.
  intros H raw.
  assert (Hne : strs <> []) by (intro E; rewrite E in H; simpl in H; lia).
  rewrite (findCommonPrefix_unfold strs H). fold raw.
  assert (Hlen : length raw = rawPrefixLen strs) by (apply rawPrefix_length; exact Hne).
  split; [|split; [|split; [|split; [|split]]]].
  - intros s Hs. apply rawPrefix_common; exact Hs.
  - intros p Hp. apply rawPrefix_longest; assumption.
  - rewrite Hlen. apply rawPrefixLen_le.
  - rewrite Hlen.
    destruct (prefixLoop_spec strs (minLenOf strs) 0) as (_ & _ & Hstop); [intros j Hj; lia|].
    fold (rawPrefixLen strs) in Hstop.
    destruct Hstop as [Hfull | Hmis]; [left; lia | right].
    apply allMatch_false; exact Hmis.
  - intros i Hi Hsep Hlast Hnot_final.
    rewrite (proj1 (trimAtSeparator_cases raw) i Hi Hsep Hlast).
    apply Nat.ltb_lt in Hnot_final. rewrite Hnot_final. reflexivity.
  - apply (proj2 (trimAtSeparator_cases raw)).
Qed.

Lemma findCommonPrefix_lcp_then_trim_witness :
  findCommonPrefix [B "prefix-file1.txt"; B "prefix-file2.txt"; B "prefix-file3.txt"]
  = slice_to (rawPrefix [B "prefix-file1.txt"; B "prefix-file2.txt"; B "prefix-file3.txt"]) (6 + 1).
Proof.
  assert (H : 2 <= length [B "prefix-file1.txt"; B "prefix-file2.txt"; B "prefix-file3.txt"])
    by (simpl; lia).
  refine (proj1 (proj2 (proj2 (proj2 (proj2
            (findCommonPrefix_lcp_then_trim
               [B "prefix-file1.txt"; B "prefix-file2.txt"; B "prefix-file3.txt"] H)))))
            6 _ _ _ _).
  - vm_compute. lia.
  - reflexivity.
  - intros j Hj. change (length (rawPrefix [B "prefix-file1.txt"; B "prefix-file2.txt"; B "prefix-file3.txt"])) with 11 in Hj.
    assert (Hc : j = 7 \/ j = 8 \/ j = 9 \/ j = 10) by lia.
    destruct Hc as [-> | [-> | [-> | ->]]]; reflexivity.
  - vm_compute. lia.
Defined.

(** ** findMajorityPrefix *)

(** When the block of lines 116-136 installs a prefix. *)
Lemma acceptedPrefix_Some (p fp : bytes) :
  acceptedPrefix p = Some fp <->
  (0 < lastSepOf p < Z.of_nat (length p))%Z
  /\ fp = trimAtSeparator p
  /\ 3 <= length (TrimSpace fp).
Proof.
  unfold acceptedPrefix, trimAtSeparator.
  destruct ((0 <? lastSepOf p)%Z && (lastSepOf p <? Z.of_nat (length p))%Z) eqn:E.
  - apply andb_true_iff in E as [E1 E2]. apply Z.ltb_lt in E1, E2.
    destruct (3 <=? length (TrimSpace (slice_to p (Z.to_nat (lastSepOf p))))) eqn:E3.
    + apply Nat.leb_le in E3. split.
      * intro H. injection H as <-. auto.
      * intros (_ & -> & _). reflexivity.
    + apply Nat.leb_gt in E3. split; [discriminate|].
      intros (_ & -> & H). lia.
  - split; [discriminate|]. intros (H & _).
    apply andb_false_iff in E as [E | E]; apply Z.ltb_ge in E; lia.
Qed.

Lemma acceptedPrefix_no_separator (p : bytes) :
  (forall i, i < length p -> isSepAt p i = false) -> acceptedPrefix p = None.
Proof.
  intro Hnone. unfold acceptedPrefix, lastSepOf.
  destruct (sepLoop_spec p (length p)) as [[H0 _] | (k & Hk & _ & Hs & _)].
  - rewrite H0. reflexivity.
  - rewrite Hnone in Hs by exact Hk. discriminate.
Qed.

(** An installed prefix is the candidate cut right after a separator that
    is not the candidate's final byte. *)
Lemma acceptedPrefix_shape (p fp : bytes) :
  acceptedPrefix p = Some fp ->
  exists i, i + 1 < length p /\ isSepAt p i = true /\ fp = firstn (i + 1) p
            /\ 3 <= length (TrimSpace fp).
Proof.
  intro H. apply acceptedPrefix_Some in H as (Hrange & Hfp & Htrim).
  unfold trimAtSeparator in Hfp. unfold lastSepOf in *.
  destruct (sepLoop_spec p (length p)) as [[H0 _] | (k & Hk & Hv & Hs & _)].
  - rewrite H0 in Hrange. lia.
  - rewrite Hv in *. exists k.
    replace (0 <? Z.of_nat (k + 1))%Z with true in Hfp by (symmetry; apply Z.ltb_lt; lia).
    replace (Z.of_nat (k + 1) <? Z.of_nat (length p))%Z with true in Hfp
      by (symmetry; apply Z.ltb_lt; lia).
    simpl in Hfp. rewrite Nat2Z.id in Hfp. unfold slice_to in Hfp.
    repeat split; try assumption. lia.
Qed.

Lemma firstn_ends_in_separator (p : bytes) (i : nat) :
  i < length p -> isSepAt p i = true -> endsInSeparator (firstn (i + 1) p).
Proof.
  intros Hi Hsep. unfold isSepAt in Hsep. apply orb_true_iff in Hsep as [Hb | Hb].
  - left. exists (firstn i p), (idx p i). split.
    + rewrite Nat.add_1_r. apply firstn_succ_idx; exact Hi.
    + destruct (idx p i); try discriminate Hb; auto.
  - right. unfold isBracketAt in Hb.
    apply andb_true_iff in Hb as [Hb H3]. apply andb_true_iff in Hb as [Hb H2].
    apply andb_true_iff in Hb as [H0 H1].
    apply Nat.leb_le in H0. apply byte_eqb_eq in H1, H2, H3.
    exists (firstn (i - 2) p).
    rewrite Nat.add_1_r, (firstn_succ_idx p i Hi), H3.
    replace i with (S (i - 1)) at 1 by lia.
    rewrite firstn_succ_idx by lia. rewrite H2.
    replace (i - 1) with (S (i - 2)) at 1 by lia.
    rewrite firstn_succ_idx by lia. rewrite H1.
    rewrite <- !app_assoc. reflexivity.
Qed.

Lemma tryCandidate_inv (strs : list bytes) (threshold : Z) (c : bytes) (st : best) :
  isCandidate strs c ->
  bestFromCandidate strs threshold st ->
  bestFromCandidate strs threshold (tryCandidate strs threshold c st).
Proof.
  intros Hc Hst. unfold tryCandidate.
  destruct ((threshold <=? Z.of_nat (matchCountOf strs c))%Z && (snd st <? matchCountOf strs c)) eqn:E;
    [|exact Hst].
  apply andb_true_iff in E as [E _]. apply Z.leb_le in E.
  destruct (acceptedPrefix c) as [fp|] eqn:Hacc; [|exact Hst].
  right. exists c. simpl. auto.
Qed.

Lemma lengthLoop_inv (strs : list bytes) (threshold : Z) (sourceFile : bytes) :
  In sourceFile strs ->
  forall (len : nat) (st : best),
    len <= length sourceFile ->
    bestFromCandidate strs threshold st ->
    bestFromCandidate strs threshold (lengthLoop strs threshold sourceFile len st).
Proof.
  intros Hin len; induction len as [|len IH]; intros st Hlen Hst; simpl; [exact Hst|].
  destruct len as [|[|len]]; try exact Hst.
  change (3 <=? S (S (S len))) with true. cbv iota.
  apply IH; [lia|].
  apply tryCandidate_inv; [|exact Hst].
  exists sourceFile, (S (S (S len))). split; [exact Hin | split; [lia | reflexivity]].
Qed.

Lemma sourceLoop_inv (strs : list bytes) (threshold : Z) (sources : list bytes) :
  (forall s, In s sources -> In s strs) ->
  forall st, bestFromCandidate strs threshold st ->
             bestFromCandidate strs threshold (sourceLoop strs threshold sources st).
Proof.
  unfold sourceLoop. induction sources as [|a sources IH]; intros Hsub st Hst; simpl; [exact Hst|].
  apply IH; [intros s Hs; apply Hsub; right; exact Hs|].
  apply lengthLoop_inv; [apply Hsub; left; reflexivity | lia | exact Hst].
Qed.

(** Every non-empty result is the accepted form of a qualifying candidate. *)
Lemma findMajorityPrefix_from_candidate (strs : list bytes) :
  findMajorityPrefix strs <> [] ->
  exists c, isCandidate strs c /\ qualifies strs c
            /\ acceptedPrefix c = Some (findMajorityPrefix strs).
Proof.
  unfold findMajorityPrefix, qualifies.
  destruct (length strs <? 2); [intro H; contradiction H; reflexivity|].
  intro Hne.
  destruct (sourceLoop_inv strs (thresholdOf (length strs)) strs (fun s H => H) ([], 0))
    as [E | (c & Hc & Hq & Hacc & _)].
  - left; reflexivity.
  - rewrite E in Hne. contradiction Hne. reflexivity.
  - exists c. auto.
Qed.

(** C9: every non-empty string returned by [findMajorityPrefix] ends in a
    separator (its last byte is one of [- _ space ) ]], or it ends with the
    bytes E3 80 91), is a strictly shorter byte-prefix of at least one input
    filename, and has whitespace-trimmed length at least 3; so it is never
    a separator-free prefix. *)
Theorem findMajorityPrefix_result_shape (strs : list bytes) :
  findMajorityPrefix strs <> [] ->
  endsInSeparator (findMajorityPrefix strs)
  /\ (exists s, In s strs
                /\ isPrefixOf (findMajorityPrefix strs) s
                /\ length (findMajorityPrefix strs) < length s)
  /\ 3 <= length (TrimSpace (findMajorityPrefix strs)).
Proof.
  intro Hne.
  destruct (findMajorityPrefix_from_candidate strs Hne) as (c & (s & len & Hs & Hlen & Hc) & _ & Hacc).
  destruct (acceptedPrefix_shape _ _ Hacc) as (i & Hi & Hsep & Hfp & Htrim).
  assert (Hclen : length c = len) by (rewrite Hc; apply firstn_length_le; lia).
  split; [|split].
  - rewrite Hfp. apply firstn_ends_in_separator; [lia | exact Hsep].
  - exists s. split; [exact Hs|]. rewrite Hfp. split.
    + apply isPrefixOf_trans with c; [apply isPrefixOf_firstn|].
      rewrite Hc. apply isPrefixOf_firstn.
    + rewrite firstn_length_le by lia. lia.
  - exact Htrim.
Qed.

Lemma findMajorityPrefix_result_shape_witness :
  endsInSeparator (findMajorityPrefix [B "[Mix] Song1.mp3"; B "[Mix] Song2.mp3"; B "Other-Song8.mp3"])
  /\ (exists s, In s [B "[Mix] Song1.mp3"; B "[Mix] Song2.mp3"; B "Other-Song8.mp3"]
        /\ isPrefixOf (findMajorityPrefix [B "[Mix] Song1.mp3"; B "[Mix] Song2.mp3"; B "Other-Song8.mp3"]) s
        /\ length (findMajorityPrefix [B "[Mix] Song1.mp3"; B "[Mix] Song2.mp3"; B "Other-Song8.mp3"])
           < length s)
  /\ 3 <= length (TrimSpace (findMajorityPrefix [B "[Mix] Song1.mp3"; B "[Mix] Song2.mp3"; B "Other-Song8.mp3"])).
Proof.
  apply (findMajorityPrefix_result_shape [B "[Mix] Song1.mp3"; B "[Mix] Song2.mp3"; B "Other-Song8.mp3"]).
  vm_compute. discriminate.
Defined.

Lemma matchCount_three (a b d c : bytes) :
  noSharedPrefix3 [a; b; d] -> 3 <= length c -> matchCountOf [a; b; d] c <= 1.
Proof.
  intros Hno Hc. unfold matchCountOf. simpl.
  destruct (HasPrefix a c) eqn:Ea, (HasPrefix b c) eqn:Eb, (HasPrefix d c) eqn:Ed;
    simpl; try lia; exfalso;
    repeat match goal with
           | H : HasPrefix _ _ = true |- _ => apply HasPrefix_iff in H
           end.
  - apply (Hno 0 1 c); [simpl; lia | exact Hc | split; assumption].
  - apply (Hno 0 1 c); [simpl; lia | exact Hc | split; assumption].
  - apply (Hno 0 2 c); [simpl; lia | exact Hc | split; assumption].
  - apply (Hno 1 2 c); [simpl; lia | exact Hc | split; assumption].
Qed.

(** C5: [findMajorityPrefix] returns the empty string whenever no candidate
    prefix reaches the threshold; in particular it does for 3 filenames no
    two of which share a prefix of 3 bytes or more. *)
Theorem findMajorityPrefix_empty_without_majority (strs : list bytes) :
  (forall c, isCandidate strs c -> ~ qualifies strs c)
  \/ (length strs = 3 /\ noSharedPrefix3 strs) ->
  findMajorityPrefix strs = [].
Proof.
  intro H.
  assert (Hnone : forall c, isCandidate strs c -> ~ qualifies strs c).
  { destruct H as [H | [Hlen Hno]]; [exact H|].
    intros c (s & len & Hs & Hl & Hc) Hq. unfold qualifies in Hq. rewrite Hlen in Hq.
    change (thresholdOf 3) with 2%Z in Hq.
    destruct strs as [|a [|b [|d [|e strs]]]]; simpl in Hlen; try lia.
    assert (Hclen : 3 <= length c) by (rewrite Hc; unfold slice_to; rewrite firstn_length_le; lia).
    pose proof (matchCount_three a b d c Hno Hclen). lia. }
  destruct (findMajorityPrefix strs) as [|x r] eqn:E; [reflexivity|].
  assert (Hne : findMajorityPrefix strs <> []) by (rewrite E; discriminate).
  destruct (findMajorityPrefix_from_candidate strs Hne) as (c & Hc & Hq & _).
  exfalso. exact (Hnone c Hc Hq).
Qed.

Lemma findMajorityPrefix_empty_without_majority_witness :
  findMajorityPrefix [B "A-file1.txt"; B "B-file2.txt"; B "C-file3.txt"] = [].
Proof.
  apply (findMajorityPrefix_empty_without_majority
           [B "A-file1.txt"; B "B-file2.txt"; B "C-file3.txt"]).
  right. split; [reflexivity|].
  intros i j p Hij Hp [[t1 H1] [t2 H2]].
  destruct p as [|x p]; [simpl in Hp; lia|].
  simpl in Hij.
  assert (Hc : (i = 0 /\ j = 1) \/ (i = 0 /\ j = 2) \/ (i = 1 /\ j = 2)) by lia.
  destruct Hc as [[-> ->] | [[-> ->] | [-> ->]]];
    vm_compute in H1, H2; injection H1 as Hx _; injection H2 as Hy _; congruence.
Defined.

(** C1, as the code has it: the block [findMajorityPrefix] runs on a
    qualifying candidate installs a prefix only when the backward scan finds
    a separator that is not the candidate's final byte and the candidate cut
    right after it has whitespace-trimmed length at least 3; the prefix
    installed is then what the trimming of [findCommonPrefix] makes of that
    candidate.  A candidate holding no separator is not accepted, although
    the trimming of [findCommonPrefix] keeps it as it is.  So every non-empty
    result is the trimmed form of a qualifying candidate that holds a
    separator before its final byte. *)
Theorem majority_accepts_only_cut_candidates (strs : list bytes) :
  (forall c fp,
      acceptedPrefix c = Some fp <->
      (0 < lastSepOf c < Z.of_nat (length c))%Z
      /\ fp = trimAtSeparator c
      /\ 3 <= length (TrimSpace fp))
  /\ (forall c, (forall i, i < length c -> isSepAt c i = false) ->
                acceptedPrefix c = None /\ trimAtSeparator c = c)
  /\ (findMajorityPrefix strs <> [] ->
      exists c, isCandidate strs c /\ qualifies strs c
                /\ (exists i, i + 1 < length c /\ isSepAt c i = true)
                /\ findMajorityPrefix strs = trimAtSeparator c).
Proof.
  split; [|split].
  - intros c fp. apply acceptedPrefix_Some.
  - intros c Hnone. split.
    + apply acceptedPrefix_no_separator; exact Hnone.
    + apply (proj2 (trimAtSeparator_cases c)); exact Hnone.
  - intro Hne.
    destruct (findMajorityPrefix_from_candidate strs Hne) as (c & Hc & Hq & Hacc).
    exists c. split; [exact Hc | split; [exact Hq | split]].
    + destruct (acceptedPrefix_shape _ _ Hacc) as (i & Hi & Hsep & _).
      exists i. split; assumption.
    + apply acceptedPrefix_Some in Hacc. tauto.
Qed.

Lemma majority_accepts_only_cut_candidates_witness :
  exists c, isCandidate [B "Artist-Song1.mp3"; B "Artist-Song2.mp3"; B "Other.mp3"] c
            /\ qualifies [B "Artist-Song1.mp3"; B "Artist-Song2.mp3"; B "Other.mp3"] c
            /\ (exists i, i + 1 < length c /\ isSepAt c i = true)
            /\ findMajorityPrefix [B "Artist-Song1.mp3"; B "Artist-Song2.mp3"; B "Other.mp3"]
               = trimAtSeparator c.
Proof.
  apply (majority_accepts_only_cut_candidates
           [B "Artist-Song1.mp3"; B "Artist-Song2.mp3"; B "Other.mp3"]).
  vm_compute. discriminate.
Defined.

(** C1 as stated fails.  In the directory [abcdef1], [abcdef2] the candidate
    [abcdef] is matched by both files, so it reaches the threshold 2; it
    holds no separator, and the trimming of [findCommonPrefix] keeps it
    unmodified, with trimmed length 6.  [findMajorityPrefix] does not accept
    it, nor any other candidate, and returns the empty string. *)
Lemma majority_rejects_separator_free_candidate :
  isCandidate [B "abcdef1"; B "abcdef2"] (B "abcdef")
  /\ qualifies [B "abcdef1"; B "abcdef2"] (B "abcdef")
  /\ (forall i, i < length (B "abcdef") -> isSepAt (B "abcdef") i = false)
  /\ trimAtSeparator (B "abcdef") = B "abcdef"
  /\ 3 <= length (TrimSpace (trimAtSeparator (B "abcdef")))
  /\ acceptedPrefix (B "abcdef") <> Some (trimAtSeparator (B "abcdef"))
  /\ findCommonPrefix [B "abcdef1"; B "abcdef2"] = B "abcdef"
  /\ findMajorityPrefix [B "abcdef1"; B "abcdef2"] = [].
Proof.
  split; [|split; [|split; [|split; [|split; [|split; [|split]]]]]].
  - exists (B "abcdef1"), 6. split; [left; reflexivity | split; [vm_compute; lia | reflexivity]].
  - vm_compute. discriminate.
  - intros i Hi. change (length (B "abcdef")) with 6 in Hi.
    assert (Hc : i = 0 \/ i = 1 \/ i = 2 \/ i = 3 \/ i = 4 \/ i = 5) by lia.
    destruct Hc as [-> | [-> | [-> | [-> | [-> | ->]]]]]; reflexivity.
  - reflexivity.
  - vm_compute. lia.
  - vm_compute. discriminate.
  - reflexivity.
  - reflexivity.
Qed.

(** Below 90 files the float64 product gives the exact floor of 0.7 n. *)
Lemma thresholdOf_exact_below_90 (n : nat) :
  n < 90 -> thresholdOf n = Z.max 2 (7 * Z.of_nat n / 10).
Proof.
  intro Hn.
  assert (Hall : forallb (fun k => (thresholdOf k =? Z.max 2 (7 * Z.of_nat k / 10))%Z) (seq 0 90) = true)
    by (vm_compute; reflexivity).
  rewrite forallb_forall in Hall.
  apply Z.eqb_eq, Hall, in_seq. lia.
Qed.

(** C3 at 90 files: [float64(90) * 0.7] rounds to the float64 just below 63,
    so the threshold of line 91 is 62, where [max(2, floor(0.7 * 90))] is
    63.  In a directory of 90 files of which exactly 62 start with
    [Artist-], [findMajorityPrefix] returns [Artist-]; with the threshold 63
    the same loops return the empty string. *)
Theorem threshold_at_90_files :
  length ninetyFiles = 90
  /\ thresholdOf 90 = 62%Z
  /\ Z.max 2 (7 * 90 / 10) = 63%Z
  /\ matchCountOf ninetyFiles (B "Artist-") = 62
  /\ findMajorityPrefix ninetyFiles = B "Artist-"
  /\ fst (sourceLoop ninetyFiles 63 ninetyFiles ([], 0)) = [].
Proof.
  split; [|split; [|split; [|split; [|split]]]]; vm_compute; reflexivity.
Qed.

(** ** The rename plan *)

Section PlanProperties.

Variable Base : bytes -> bytes.
Variable Join : bytes -> bytes -> bytes.

(** One iteration appends what the file contributes on its own. *)
Lemma planStep_app (dir prefix : bytes) (st : list RenamePlan * list output) (file : bytes) :
  planStep Base Join dir prefix st file
  = (fst st ++ fst (planStep Base Join dir prefix ([], []) file),
     snd st ++ snd (planStep Base Join dir prefix ([], []) file)).
Proof.
  unfold planStep. destruct st as [plans out]. simpl.
  destruct (bytes_eqb (TrimSpace (TrimPrefix (Base file) prefix)) []).
  - simpl. rewrite app_nil_r. reflexivity.
  - destruct (negb (bytes_eqb (Base file) (TrimSpace (TrimPrefix (Base file) prefix)))); simpl;
      rewrite ?app_nil_r; reflexivity.
Qed.

Lemma buildPlans_fold (dir prefix : bytes) (files : list bytes) (st : list RenamePlan * list output) :
  fold_left (planStep Base Join dir prefix) files st
  = (fst st ++ flat_map (fun file => fst (planStep Base Join dir prefix ([], []) file)) files,
     snd st ++ flat_map (fun file => snd (planStep Base Join dir prefix ([], []) file)) files).
Proof.
  revert st; induction files as [|file files IH]; intro st; simpl.
  - rewrite !app_nil_r. destruct st; reflexivity.
  - rewrite IH, planStep_app. simpl. rewrite <- !app_assoc. reflexivity.
Qed.

(** The plan holds an entry exactly for the files whose new name is
    neither empty nor the old name. *)
Lemma in_plans (dir prefix : bytes) (files : list bytes) (e : RenamePlan) :
  In e (fst (buildPlans Base Join dir prefix files)) <->
  exists file, In file files
               /\ newNameOf Base prefix file <> []
               /\ newNameOf Base prefix file <> Base file
               /\ e = {| OldPath := file;
                         NewPath := Join dir (newNameOf Base prefix file);
                         OldName := Base file;
                         NewName := newNameOf Base prefix file |}.
Proof.
  unfold buildPlans. rewrite buildPlans_fold. simpl. rewrite in_flat_map.
  unfold planStep, newNameOf. split.
  - intros (file & Hin & He). exists file. split; [exact Hin|].
    destruct (bytes_eqb (TrimSpace (TrimPrefix (Base file) prefix)) []) eqn:E1; [destruct He|].
    destruct (bytes_eqb (Base file) (TrimSpace (TrimPrefix (Base file) prefix))) eqn:E2;
      simpl in He; [destruct He|].
    apply bytes_eqb_neq in E1, E2.
    destruct He as [<- | []]. split; [exact E1 | split; [congruence | reflexivity]].
  - intros (file & Hin & H1 & H2 & ->). exists file. split; [exact Hin|].
    apply bytes_eqb_neq in H1. rewrite H1.
    assert (H2' : Base file <> TrimSpace (TrimPrefix (Base file) prefix)) by congruence.
    apply bytes_eqb_neq in H2'. rewrite H2'. simpl. left; reflexivity.
Qed.



(** A file that does not start with the prefix keeps its name up to the
    whitespace around it: it enters the plan exactly when trimming
    changes its name and leaves it non-empty. *)
Lemma unmatched_file_new_name (prefix file : bytes) :
  HasPrefix (Base file) prefix = false ->
  newNameOf Base prefix file = TrimSpace (Base file).
Proof.
  intro H. unfold newNameOf, TrimPrefix. rewrite H. reflexivity.
Qed.

End PlanProperties.

(** C4 on the directory [/m] holding [Artist-Song1.mp3], [Artist-Song2.mp3]
    and [ x.mp3]: the prefix detected is [Artist-], the third filename does
    not start with it, and yet the plan holds an entry renaming it to
    [x.mp3]; a confirmed run prints 2 matching files and renames all 3. *)
Theorem unmatched_file_is_planned :
  detectPrefix (map unixBase artistFiles) = Some (B "Artist-")
  /\ HasPrefix (unixBase (B "/m/ x.mp3")) (B "Artist-") = false
  /\ In {| OldPath := B "/m/ x.mp3"; NewPath := B "/m/x.mp3";
           OldName := B " x.mp3"; NewName := B "x.mp3" |}
        (fst (buildPlans unixBase slashJoin (B "/m") (B "Artist-") artistFiles))
  /\ In (FileCount 3 2)
        (printed (processDirectory unixBase slashJoin logRename (B "/m") artistFiles
                                   false true [] []))
  /\ In (B "/m/ x.mp3", B "/m/x.mp3")
        (fs_after (processDirectory unixBase slashJoin logRename (B "/m") artistFiles
                                    false true [] [])).
Proof.
  split; [|split; [|split; [|split]]]; vm_compute;
    try reflexivity; repeat (first [left; reflexivity | right]).
Qed.

(** ** The confirmation *)

Lemma isAffirmative_iff (response : bytes) :
  isAffirmative response = true <->
  ToLower (TrimSpace response) = B "y" \/ ToLower (TrimSpace response) = B "yes".
Proof.
  unfold isAffirmative. rewrite orb_true_iff, !bytes_eqb_eq. reflexivity.
Qed.

(** On a file system that records the calls of [os.Rename], executing a
    plan requests every one of its renames, in order. *)
Lemma executePlans_log (fs : renameLog) (plans : list RenamePlan) :
  fst (executePlans logRename fs plans)
  = fs ++ map (fun p => (OldPath p, NewPath p)) plans.
Proof.
  unfold executePlans.
  assert (H : forall st,
             fst (fst (fold_left (renameStep logRename) plans st))
             = fst (fst st) ++ map (fun p => (OldPath p, NewPath p)) plans).
  { induction plans as [|p plans IH]; intro st; simpl.
    - symmetry; apply app_nil_r.
    - rewrite IH. destruct st as [[fs0 n] out]. simpl. rewrite <- app_assoc. reflexivity. }
  specialize (H (fs, 0, [])).
  destruct (fold_left (renameStep logRename) plans (fs, 0, [])) as [[fs' n] out].
  exact H.
Qed.

Section ConfirmationProperties.

Variable Base : bytes -> bytes.
Variable Join : bytes -> bytes -> bytes.
Variable FS : Type.
Variable osRename : FS -> bytes -> bytes -> FS * bool.

(** C8: when [processDirectory] asks for confirmation and reads a line
    [response], the answer is affirmative exactly when [response],
    trimmed of surrounding whitespace and lowercased, is [y] or [yes]: the
    plan is then executed.  Any other line, the empty one included, is a
    decline: [SkippedDirectory] is printed and the file system is left as
    it was, no rename of the group being requested. *)
Theorem confirmation_only_on_y_or_yes
        (dir : bytes) (files : list bytes) (stdin : bytes) (fs : FS) (response : bytes) :
  ReadString x0a stdin = (response, true) ->
  (isAffirmative response = true <->
   ToLower (TrimSpace response) = B "y" \/ ToLower (TrimSpace response) = B "yes")
  /\ (forall plans out,
        confirmAndRun osRename false stdin fs plans out
        = if isAffirmative response
          then {| printed := (out ++ [Prompt (length plans)])
                               ++ snd (executePlans osRename fs plans);
                  fs_after := fst (executePlans osRename fs plans);
                  err_nil := true |}
          else {| printed := (out ++ [Prompt (length plans)]) ++ [SkippedDirectory];
                  fs_after := fs;
                  err_nil := true |})
  /\ (isAffirmative response = false ->
        fs_after (processDirectory Base Join osRename dir files false false stdin fs) = fs)
  /\ isAffirmative [x0a] = false.
Proof.
  intro Hread. split; [apply isAffirmative_iff | split; [|split]].
  - intros plans out. unfold confirmAndRun. simpl. rewrite Hread.
    destruct (isAffirmative response); simpl; [|reflexivity].
    destruct (executePlans osRename fs plans); reflexivity.
  - intro Hno. unfold processDirectory.
    destruct (length files <? 2); [reflexivity|].
    destruct (detectPrefix (map Base files)) as [prefix|]; [|reflexivity].
    destruct (buildPlans Base Join dir prefix files) as [plans warnings].
    destruct (length plans =? 0); [reflexivity|].
    unfold confirmAndRun. simpl. rewrite Hread, Hno. reflexivity.
  - reflexivity.
Qed.

End ConfirmationProperties.

Lemma confirmation_only_on_y_or_yes_witness :
  fs_after (processDirectory unixBase slashJoin logRename (B "/m") artistFiles
                             false false (B "yeah" ++ [x0a]) [])
  = [].
Proof.
  refine (proj1 (proj2 (proj2
            (confirmation_only_on_y_or_yes unixBase slashJoin renameLog logRename
               (B "/m") artistFiles (B "yeah" ++ [x0a]) [] (B "yeah" ++ [x0a]) _))) _).
  - reflexivity.
  - reflexivity.
Defined.

(** ** The float64 rounding *)

Local Open Scope Z_scope.

(** [round64] returns a value with a significand of at most 53 bits that is
    nearest to the exact [m * 2^e]: the error is at most half a unit of the
    last place. *)
Lemma round64_nearest (m e : Z) :
  0 < m ->
  let f := round64 m e in
  let sh := expo f - e in
  0 <= sh
  /\ 0 < mant f <= 2 ^ 53
  /\ 2 * Z.abs (mant f * 2 ^ sh - m) <= 2 ^ sh
  /\ (sh = 0 \/ 2 ^ 52 <= mant f).
Proof.
  intro Hm. unfold round64.
  replace (m =? 0) with false by (symmetry; apply Z.eqb_neq; lia).
  destruct (Z.log2_spec m Hm) as [Hlo Hhi].
  pose proof (Z.log2_nonneg m) as Hlog.
  destruct (Z.log2 m + 1 - 53 <=? 0) eqn:E; cbn [mant expo].
  - apply Z.leb_le in E. replace (e - e) with 0 by lia.
    rewrite Z.pow_0_r, Z.mul_1_r, Z.sub_diag. simpl Z.abs.
    assert (2 ^ Z.succ (Z.log2 m) <= 2 ^ 53) by (apply Z.pow_le_mono_r; lia).
    lia.
  - apply Z.leb_gt in E. set (sh := Z.log2 m + 1 - 53) in *.
    replace (e + sh - e) with sh by lia.
    rewrite Z.shiftr_div_pow2, Z.land_ones, Z.shiftl_1_l by lia.
    assert (Hp : 0 < 2 ^ sh) by (apply Z.pow_pos_nonneg; lia).
    assert (Hsplit : 2 ^ sh = 2 * 2 ^ (sh - 1)).
    { rewrite <- Z.pow_succ_r by lia. f_equal. lia. }
    assert (Hhalf : 0 < 2 ^ (sh - 1)) by (apply Z.pow_pos_nonneg; lia).
    pose proof (Z.div_mod m (2 ^ sh) ltac:(lia)) as Hdm.
    pose proof (Z.mod_pos_bound m (2 ^ sh) Hp) as Hr.
    set (q := m / 2 ^ sh) in *. set (r := m mod 2 ^ sh) in *.
    assert (Hq : 2 ^ 52 <= q < 2 ^ 53).
    { assert (H1 : 2 ^ Z.log2 m = 2 ^ 52 * 2 ^ sh)
        by (rewrite <- Z.pow_add_r by lia; f_equal; unfold sh; lia).
      assert (H2 : 2 ^ Z.succ (Z.log2 m) = 2 ^ 53 * 2 ^ sh)
        by (rewrite <- Z.pow_add_r by lia; f_equal; unfold sh; lia).
      split.
      - apply Z.div_le_lower_bound; lia.
      - apply Z.div_lt_upper_bound; lia. }
    destruct ((2 ^ (sh - 1) <? r) || ((r =? 2 ^ (sh - 1)) && Z.odd q)) eqn:Eup.
    + assert (Hge : 2 ^ (sh - 1) <= r).
      { apply Bool.orb_true_iff in Eup as [Eup | Eup].
        - apply Z.ltb_lt in Eup. lia.
        - apply Bool.andb_true_iff in Eup as [Eup _]. apply Z.eqb_eq in Eup. lia. }
      split; [lia | split; [lia | split; [|right; lia]]].
      replace ((q + 1) * 2 ^ sh - m) with (2 ^ sh - r) by lia.
      rewrite Z.abs_eq by lia. lia.
    + assert (Hle : r <= 2 ^ (sh - 1)).
      { apply Bool.orb_false_iff in Eup as [Eup _]. apply Z.ltb_ge in Eup. lia. }
      split; [lia | split; [lia | split; [|right; lia]]].
      replace (q * 2 ^ sh - m) with (- r) by lia.
      rewrite Z.abs_opp, Z.abs_eq by lia. lia.
Qed.

Local Close Scope Z_scope.

(** ** The answers taken as a confirmation *)

Lemma lowerByte_y (c : byte) : lowerByte c = x79 -> c = x79 \/ c = x59.
Proof. destruct c; vm_compute; intro H; try discriminate H; auto. Qed.

Lemma lowerByte_e (c : byte) : lowerByte c = x65 -> c = x65 \/ c = x45.
Proof. destruct c; vm_compute; intro H; try discriminate H; auto. Qed.

Lemma lowerByte_s (c : byte) : lowerByte c = x73 -> c = x73 \/ c = x53.
Proof. destruct c; vm_compute; intro H; try discriminate H; auto. Qed.

(** The trimmed answer is [y] or [yes] in some mix of upper and lower case:
    it holds ASCII letters only. *)
Lemma affirmative_answers (response : bytes) :
  isAffirmative response = true ->
  In (TrimSpace response)
     [B "y"; B "Y"; B "yes"; B "yeS"; B "yEs"; B "yES"; B "Yes"; B "YeS"; B "YEs"; B "YES"].
Proof.
  intro H. apply isAffirmative_iff in H. unfold ToLower in H.
  destruct (TrimSpace response) as [|c0 [|c1 [|c2 [|c3 t]]]];
    destruct H as [H | H]; try discriminate H.
  - injection H as H0.
    destruct (lowerByte_y _ H0) as [-> | ->]; simpl; auto.
  - injection H as H0 H1 H2.
    destruct (lowerByte_y _ H0) as [-> | ->], (lowerByte_e _ H1) as [-> | ->],
             (lowerByte_s _ H2) as [-> | ->]; simpl; auto 11.
Qed.

(** ** The cases of the repository's tests *)

Example test_simple_common_prefix :
  findCommonPrefix [B "prefix-file1.txt"; B "prefix-file2.txt"; B "prefix-file3.txt"]
  = B "prefix-".
Proof. reflexivity. Qed.

Example test_chinese_prefix_with_separator :
  findCommonPrefix [B "【歌单】song1.mp3"; B "【歌单】song2.mp3"; B "【歌单】song3.mp3"]
  = B "【歌单】".
Proof. reflexivity. Qed.

Example test_no_common_prefix :
  findCommonPrefix [B "abc.txt"; B "def.txt"; B "ghi.txt"] = [].
Proof. reflexivity. Qed.

Example test_prefix_with_space_separator :
  findCommonPrefix [B "Common Prefix file1.mp3"; B "Common Prefix file2.mp3"]
  = B "Common Prefix ".
Proof. reflexivity. Qed.

Example test_complex_chinese_prefix :
  findCommonPrefix
    [B "【Music Collection】Taylor Swift Greatest Hits p01 Shake It Off.m4a";
     B "【Music Collection】Taylor Swift Greatest Hits p02 Blank Space.m4a";
     B "【Music Collection】Taylor Swift Greatest Hits p03 Love Story.m4a"]
  = B "【Music Collection】Taylor Swift Greatest Hits ".
Proof. reflexivity. Qed.

Example test_numbers_and_chinese_prefix :
  findCommonPrefix [B "01-【Playlist】Song Name 1.mp3"; B "02-【Playlist】Song Name 2.mp3";
                    B "03-【Playlist】Song Name 3.mp3"]
  = B "0".
Proof. reflexivity. Qed.

Example test_prefix_too_short :
  findCommonPrefix [B "a1.txt"; B "a2.txt"; B "a3.txt"] = B "a".
Proof. reflexivity. Qed.

Example test_majority_with_outliers :
  findMajorityPrefix
    [B "Artist-Song1.mp3"; B "Artist-Song2.mp3"; B "Artist-Song3.mp3";
     B "Artist-Song4.mp3"; B "Artist-Song5.mp3";
     B "OtherArtist&Artist-Collab1.mp3"; B "AnotherArtist&Artist-Collab2.mp3"]
  = B "Artist-".
Proof. vm_compute. reflexivity. Qed.

Example test_70_percent_threshold :
  findMajorityPrefix
    [B "[Playlist] Song1.mp3"; B "[Playlist] Song2.mp3"; B "[Playlist] Song3.mp3";
     B "[Playlist] Song4.mp3"; B "[Playlist] Song5.mp3"; B "[Playlist] Song6.mp3";
     B "[Playlist] Song7.mp3"; B "Other-Song8.mp3"; B "Other-Song9.mp3";
     B "Other-Song10.mp3"]
  = B "[Playlist] ".
Proof. vm_compute. reflexivity. Qed.

Example test_no_majority :
  findMajorityPrefix [B "A-file1.txt"; B "B-file2.txt"; B "C-file3.txt"] = [].
Proof. vm_compute. reflexivity. Qed.

(** Answers at the prompt, as [ReadString] returns them. *)
Example answer_yes_upper : isAffirmative (B "YES" ++ [x0a]) = true.
Proof. reflexivity. Qed.

Example answer_y_spaces : isAffirmative (B "  y " ++ [x0d; x0a]) = true.
Proof. reflexivity. Qed.

Example answer_empty_line : isAffirmative [x0a] = false.
Proof. reflexivity. Qed.

Example answer_yeah : isAffirmative (B "yeah" ++ [x0a]) = false.
Proof. reflexivity. Qed.

Example answer_no : isAffirmative (B "n" ++ [x0a]) = false.
Proof. reflexivity. Qed.

(** * Further properties of the prefix detector *)

Lemma isPrefixOf_antisym (a b : bytes) : isPrefixOf a b -> isPrefixOf b a -> a = b.
Proof.
  intros [t Ht] [u Hu].
  assert (Hlen : length t = 0).
  { apply (f_equal (@length byte)) in Ht, Hu. rewrite length_app in Ht, Hu. lia. }
  destruct t; [|discriminate Hlen]. rewrite app_nil_r in Ht. congruence.
Qed.

Lemma idx_firstn (p : bytes) (n j : nat) : j < n -> idx (firstn n p) j = idx p j.
Proof.
  revert n j; induction p as [|b p IH]; intros n j Hj.
  - rewrite firstn_nil. reflexivity.
  - destruct n as [|n]; [lia|]. destruct j as [|j]; [reflexivity|].
    simpl. apply IH. lia.
Qed.

(** Whether position [j] holds a separator depends on the bytes up to [j]
    only. *)
Lemma isSepAt_firstn (p : bytes) (n j : nat) :
  j < n -> isSepAt (firstn n p) j = isSepAt p j.
Proof.
  intro Hj. unfold isSepAt, isBracketAt.
  rewrite !idx_firstn by lia. reflexivity.
Qed.

Lemma last_separator (p : bytes) :
  (forall i, i < length p -> isSepAt p i = false)
  \/ exists k, k < length p /\ isSepAt p k = true
               /\ forall j, k < j < length p -> isSepAt p j = false.
Proof.
  destruct (sepLoop_spec p (length p)) as [[_ H] | (k & Hk & _ & Hs & Hmax)].
  - left; exact H.
  - right. exists k. auto.
Qed.

Lemma trimAtSeparator_nonempty (p : bytes) : p <> [] -> trimAtSeparator p <> [].
Proof.
  intro Hp. destruct (last_separator p) as [Hnone | (k & Hk & Hs & Hmax)].
  - rewrite (proj2 (trimAtSeparator_cases p) Hnone). exact Hp.
  - rewrite (proj1 (trimAtSeparator_cases p) k Hk Hs Hmax).
    destruct (k + 1 <? length p); [|exact Hp].
    unfold slice_to. destruct p as [|b p]; [contradiction Hp; reflexivity|].
    rewrite Nat.add_1_r. discriminate.
Qed.

(** X1: the result of [findCommonPrefix] does not depend on the order of
    the filenames. *)
Theorem findCommonPrefix_permutation (l1 l2 : list bytes) :
  Permutation l1 l2 -> findCommonPrefix l1 = findCommonPrefix l2.
Proof.
  intro HP. pose proof (Permutation_length HP) as Hlen.
  destruct (Nat.lt_ge_cases (length l1) 2) as [Hshort | Hlong].
  - destruct l1 as [|a [|b l1]], l2 as [|c [|d l2]]; simpl in *; try lia; reflexivity.
  - rewrite (findCommonPrefix_unfold l1 Hlong).
    rewrite (findCommonPrefix_unfold l2) by lia.
    assert (Hne1 : l1 <> []) by (intro E; rewrite E in Hlong; simpl in Hlong; lia).
    assert (Hne2 : l2 <> []) by (intro E; rewrite E in Hlen; simpl in Hlen; lia).
    f_equal. apply isPrefixOf_antisym.
    + apply rawPrefix_longest; [exact Hne2|]. intros s Hs.
      apply rawPrefix_common. apply (Permutation_in s (Permutation_sym HP)). exact Hs.
    + apply rawPrefix_longest; [exact Hne1|]. intros s Hs.
      apply rawPrefix_common. apply (Permutation_in s HP). exact Hs.
Qed.

Lemma findCommonPrefix_permutation_witness :
  findCommonPrefix [B "prefix-file1.txt"; B "prefix-file2.txt"]
  = findCommonPrefix [B "prefix-file2.txt"; B "prefix-file1.txt"].
Proof.
  apply (findCommonPrefix_permutation
           [B "prefix-file1.txt"; B "prefix-file2.txt"]
           [B "prefix-file2.txt"; B "prefix-file1.txt"]).
  apply perm_swap.
Defined.

(** X2: for at least 2 filenames, [findCommonPrefix] returns a non-empty
    string exactly when all the filenames start with the same byte: the
    separator trimming never cuts a candidate down to nothing. *)
Theorem findCommonPrefix_nonempty_iff (strs : list bytes) :
  2 <= length strs ->
  (findCommonPrefix strs <> [] <-> exists b, forall s, In s strs -> exists t, s = b :: t).
Proof.
  intro H.
  assert (Hne : strs <> []) by (intro E; rewrite E in H; simpl in H; lia).
  rewrite (findCommonPrefix_unfold strs H). split.
  - intro Hres. destruct (trimAtSeparator (rawPrefix strs)) as [|b r] eqn:E;
      [contradiction Hres; reflexivity|].
    exists b. intros s Hs.
    assert (Hp : isPrefixOf (b :: r) s).
    { rewrite <- E. eapply isPrefixOf_trans;
        [apply trimAtSeparator_prefix | apply rawPrefix_common; exact Hs]. }
    destruct Hp as [t ->]. exists (r ++ t). reflexivity.
  - intros (b & Hb). apply trimAtSeparator_nonempty.
    assert (Hp : isPrefixOf [b] (rawPrefix strs)).
    { apply rawPrefix_longest; [exact Hne|]. intros s Hs.
      destruct (Hb s Hs) as [t ->]. exists t. reflexivity. }
    destruct Hp as [t Ht]. rewrite Ht. discriminate.
Qed.

Lemma findCommonPrefix_nonempty_iff_witness :
  findCommonPrefix [B "a1.txt"; B "a2.txt"] <> [].
Proof.
  refine (proj2 (findCommonPrefix_nonempty_iff [B "a1.txt"; B "a2.txt"] _) _).
  - simpl. lia.
  - exists "a"%byte. intros s [<- | [<- | []]]; eexists; reflexivity.
Defined.

(** X3: the separator trimming is idempotent: a trimmed prefix is left as
    it is by a second trimming. *)
Theorem trimAtSeparator_idempotent (p : bytes) :
  trimAtSeparator (trimAtSeparator p) = trimAtSeparator p.
Proof.
  destruct (last_separator p) as [Hnone | (k & Hk & Hs & Hmax)].
  - rewrite (proj2 (trimAtSeparator_cases p) Hnone).
    apply (proj2 (trimAtSeparator_cases p) Hnone).
  - rewrite (proj1 (trimAtSeparator_cases p) k Hk Hs Hmax).
    destruct (k + 1 <? length p) eqn:E.
    + apply Nat.ltb_lt in E. unfold slice_to.
      assert (Hlen : length (firstn (k + 1) p) = k + 1) by (apply firstn_length_le; lia).
      rewrite (proj1 (trimAtSeparator_cases (firstn (k + 1) p)) k).
      * rewrite Hlen, Nat.ltb_irrefl. reflexivity.
      * lia.
      * rewrite isSepAt_firstn by lia. exact Hs.
      * intros j Hj. lia.
    + rewrite (proj1 (trimAtSeparator_cases p) k Hk Hs Hmax), E. reflexivity.
Qed.

(** X4: for at least 2 filenames whose longest common prefix holds a
    separator, the result of [findCommonPrefix] ends in a separator. *)
Theorem findCommonPrefix_ends_in_separator (strs : list bytes) :
  2 <= length strs ->
  (exists i, i < length (rawPrefix strs) /\ isSepAt (rawPrefix strs) i = true) ->
  endsInSeparator (findCommonPrefix strs).
Proof.
  intros H (i & Hi & Hsep).
  rewrite (findCommonPrefix_unfold strs H).
  destruct (last_separator (rawPrefix strs)) as [Hnone | (k & Hk & Hs & Hmax)].
  - rewrite Hnone in Hsep by exact Hi. discriminate.
  - rewrite (proj1 (trimAtSeparator_cases (rawPrefix strs)) k Hk Hs Hmax).
    destruct (k + 1 <? length (rawPrefix strs)) eqn:E.
    + apply firstn_ends_in_separator; assumption.
    + apply Nat.ltb_ge in E.
      rewrite <- (firstn_all2 (n := k + 1) (rawPrefix strs)) by lia.
      apply firstn_ends_in_separator; assumption.
Qed.

Lemma findCommonPrefix_ends_in_separator_witness :
  endsInSeparator (findCommonPrefix [B "Common Prefix file1.mp3"; B "Common Prefix file2.mp3"]).
Proof.
  apply (findCommonPrefix_ends_in_separator
           [B "Common Prefix file1.mp3"; B "Common Prefix file2.mp3"]).
  - simpl. lia.
  - exists 6. split; [vm_compute; lia | reflexivity].
Defined.

Lemma matchCountOf_le_length (strs : list bytes) (c : bytes) :
  matchCountOf strs c <= length strs.
Proof. unfold matchCountOf. apply filter_length_le. Qed.

Lemma thresholdOf_at_least_2 (n : nat) : (2 <= thresholdOf n)%Z.
Proof.
  unfold thresholdOf.
  destruct (int_of_float64 (float64_mul (float64_of_int (Z.of_nat n)) float64_0_7) <? 2)%Z eqn:E.
  - lia.
  - apply Z.ltb_ge in E. exact E.
Qed.

(** A shorter prefix is matched by at least as many filenames. *)
Lemma matchCountOf_shorter (strs : list bytes) (p c : bytes) :
  isPrefixOf p c -> matchCountOf strs c <= matchCountOf strs p.
Proof.
  intro Hpc. unfold matchCountOf. induction strs as [|a strs IH]; simpl; [lia|].
  destruct (HasPrefix a c) eqn:Ec.
  - apply HasPrefix_iff in Ec.
    assert (Ep : HasPrefix a p = true)
      by (apply HasPrefix_iff; apply isPrefixOf_trans with c; assumption).
    rewrite Ep. simpl. lia.
  - destruct (HasPrefix a p); simpl; lia.
Qed.

Lemma tryCandidate_mono (strs : list bytes) (threshold : Z) (c : bytes) (st : best) :
  snd st <= snd (tryCandidate strs threshold c st).
Proof.
  unfold tryCandidate.
  destruct ((threshold <=? Z.of_nat (matchCountOf strs c))%Z && (snd st <? matchCountOf strs c)) eqn:E;
    [|lia].
  apply andb_true_iff in E as [_ E]. apply Nat.ltb_lt in E.
  destruct (acceptedPrefix c); simpl; lia.
Qed.

(** After a qualifying candidate that the block accepts has been tried,
    [bestMatchCount] is at least its match count. *)
Lemma tryCandidate_covers (strs : list bytes) (threshold : Z) (c : bytes) (st : best) :
  (threshold <= Z.of_nat (matchCountOf strs c))%Z ->
  acceptedPrefix c <> None ->
  matchCountOf strs c <= snd (tryCandidate strs threshold c st).
Proof.
  intros Hq Hacc. unfold tryCandidate.
  apply Z.leb_le in Hq. rewrite Hq. simpl.
  destruct (snd st <? matchCountOf strs c) eqn:E.
  - destruct (acceptedPrefix c); [simpl; lia | contradiction Hacc; reflexivity].
  - apply Nat.ltb_ge in E. exact E.
Qed.

Lemma lengthLoop_mono (strs : list bytes) (threshold : Z) (sourceFile : bytes)
      (len : nat) (st : best) :
  snd st <= snd (lengthLoop strs threshold sourceFile len st).
Proof.
  revert st; induction len as [|len IH]; intro st; simpl; [lia|].
  destruct len as [|[|len]]; try (simpl; lia).
  change (3 <=? S (S (S len))) with true. cbv iota.
  etransitivity; [|apply IH]. apply tryCandidate_mono.
Qed.

Lemma lengthLoop_step (strs : list bytes) (threshold : Z) (sourceFile : bytes)
      (len : nat) (st : best) :
  3 <= S len ->
  lengthLoop strs threshold sourceFile (S len) st
  = lengthLoop strs threshold sourceFile len
               (tryCandidate strs threshold (slice_to sourceFile (S len)) st).
Proof.
  intro H.
  change (lengthLoop strs threshold sourceFile (S len) st)
    with (if 3 <=? S len
          then lengthLoop strs threshold sourceFile len
                          (tryCandidate strs threshold (slice_to sourceFile (S len)) st)
          else st).
  apply Nat.leb_le in H. rewrite H. reflexivity.
Qed.

Lemma lengthLoop_covers (strs : list bytes) (threshold : Z) (sourceFile : bytes)
      (len : nat) (st : best) (len0 : nat) :
  3 <= len0 <= len ->
  (threshold <= Z.of_nat (matchCountOf strs (slice_to sourceFile len0)))%Z ->
  acceptedPrefix (slice_to sourceFile len0) <> None ->
  matchCountOf strs (slice_to sourceFile len0)
  <= snd (lengthLoop strs threshold sourceFile len st).
Proof.
  revert st; induction len as [|len IH]; intros st Hlen Hq Hacc; [lia|].
  rewrite lengthLoop_step by lia.
  destruct (Nat.eq_dec len0 (S len)) as [-> | Hneq].
  - etransitivity; [|apply lengthLoop_mono].
    apply tryCandidate_covers; assumption.
  - apply IH; [lia | assumption | assumption].
Qed.

Lemma sourceLoop_mono (strs : list bytes) (threshold : Z) (sources : list bytes) (st : best) :
  snd st <= snd (sourceLoop strs threshold sources st).
Proof.
  unfold sourceLoop. revert st; induction sources as [|a sources IH]; intro st; simpl; [lia|].
  etransitivity; [|apply IH]. apply lengthLoop_mono.
Qed.

Lemma sourceLoop_covers (strs : list bytes) (threshold : Z) (sources : list bytes)
      (st : best) (sourceFile : bytes) (len0 : nat) :
  In sourceFile sources ->
  3 <= len0 <= length sourceFile ->
  (threshold <= Z.of_nat (matchCountOf strs (slice_to sourceFile len0)))%Z ->
  acceptedPrefix (slice_to sourceFile len0) <> None ->
  matchCountOf strs (slice_to sourceFile len0)
  <= snd (sourceLoop strs threshold sources st).
Proof.
  unfold sourceLoop. revert st; induction sources as [|a sources IH];
    intros st Hin Hlen Hq Hacc; [destruct Hin|].
  simpl. destruct Hin as [-> | Hin].
  - etransitivity; [|apply (sourceLoop_mono strs threshold sources)].
    apply lengthLoop_covers; assumption.
  - apply IH; assumption.
Qed.


(** X5: a non-empty result of [findMajorityPrefix] comes from a qualifying
    candidate whose match count is the highest among all the qualifying
    candidates that the separator block accepts. *)
Theorem findMajorityPrefix_highest_count (strs : list bytes) :
  findMajorityPrefix strs <> [] ->
  exists c, isCandidate strs c /\ qualifies strs c
            /\ acceptedPrefix c = Some (findMajorityPrefix strs)
            /\ forall c', isCandidate strs c' -> qualifies strs c' ->
                          acceptedPrefix c' <> None ->
                          matchCountOf strs c' <= matchCountOf strs c.
Proof.
  unfold findMajorityPrefix, qualifies.
  destruct (length strs <? 2); [intro H; contradiction H; reflexivity|].
  intro Hne.
  destruct (sourceLoop_inv strs (thresholdOf (length strs)) strs (fun s H => H) ([], 0))
    as [E | (c & Hc & Hq & Hacc & Hcount)].
  - left; reflexivity.
  - rewrite E in Hne. contradiction Hne. reflexivity.
  - exists c. split; [exact Hc | split; [exact Hq | split; [exact Hacc|]]].
    intros c' (s & len & Hs & Hlen & ->) Hq' Hacc'. rewrite <- Hcount.
    apply sourceLoop_covers; assumption.
Qed.

Lemma findMajorityPrefix_highest_count_witness :
  exists c, isCandidate [B "Artist-Song1.mp3"; B "Artist-Song2.mp3"; B "Other.mp3"] c
            /\ qualifies [B "Artist-Song1.mp3"; B "Artist-Song2.mp3"; B "Other.mp3"] c
            /\ acceptedPrefix c
               = Some (findMajorityPrefix [B "Artist-Song1.mp3"; B "Artist-Song2.mp3"; B "Other.mp3"])
            /\ forall c', isCandidate [B "Artist-Song1.mp3"; B "Artist-Song2.mp3"; B "Other.mp3"] c' ->
                          qualifies [B "Artist-Song1.mp3"; B "Artist-Song2.mp3"; B "Other.mp3"] c' ->
                          acceptedPrefix c' <> None ->
                          matchCountOf [B "Artist-Song1.mp3"; B "Artist-Song2.mp3"; B "Other.mp3"] c'
                          <= matchCountOf [B "Artist-Song1.mp3"; B "Artist-Song2.mp3"; B "Other.mp3"] c.
Proof.
  apply (findMajorityPrefix_highest_count
           [B "Artist-Song1.mp3"; B "Artist-Song2.mp3"; B "Other.mp3"]).
  vm_compute. discriminate.
Defined.


Lemma majority_result_count (strs : list bytes) :
  findMajorityPrefix strs <> [] ->
  (thresholdOf (length strs) <= Z.of_nat (matchCountOf strs (findMajorityPrefix strs)))%Z
  /\ 2 <= matchCountOf strs (findMajorityPrefix strs).
Proof.
  intro Hne.
  destruct (findMajorityPrefix_from_candidate strs Hne) as (c & _ & Hq & Hacc).
  unfold qualifies in Hq.
  destruct (acceptedPrefix_shape _ _ Hacc) as (i & _ & _ & Hfp & _).
  assert (Hle : matchCountOf strs c <= matchCountOf strs (findMajorityPrefix strs)).
  { apply matchCountOf_shorter. rewrite Hfp. apply isPrefixOf_firstn. }
  pose proof (thresholdOf_at_least_2 (length strs)). lia.
Qed.

(** X7: a non-empty result of [findMajorityPrefix] is itself the prefix of
    at least as many filenames as the threshold, so of at least 2. *)
Theorem findMajorityPrefix_result_reaches_threshold (strs : list bytes) :
  findMajorityPrefix strs <> [] ->
  (thresholdOf (length strs) <= Z.of_nat (matchCountOf strs (findMajorityPrefix strs)))%Z
  /\ 2 <= matchCountOf strs (findMajorityPrefix strs).
Proof.
  intro Hne.
  destruct (findMajorityPrefix_from_candidate strs Hne) as (c & _ & Hq & Hacc).
  destruct (acceptedPrefix_shape _ _ Hacc) as (i & _ & _ & Hfp & _).
  pose proof (matchCountOf_shorter strs (findMajorityPrefix strs) c) as Hle.
  rewrite Hfp in Hle at 1. specialize (Hle (isPrefixOf_firstn c (i + 1))).
  unfold qualifies in Hq.
  pose proof (thresholdOf_at_least_2 (length strs)). lia.
Qed.

Lemma findMajorityPrefix_result_reaches_threshold_witness :
  2 <= matchCountOf [B "Artist-Song1.mp3"; B "Artist-Song2.mp3"; B "Other.mp3"]
                    (findMajorityPrefix [B "Artist-Song1.mp3"; B "Artist-Song2.mp3"; B "Other.mp3"]).
Proof.
  refine (proj2 (findMajorityPrefix_result_reaches_threshold
                   [B "Artist-Song1.mp3"; B "Artist-Song2.mp3"; B "Other.mp3"] _)).
  vm_compute. discriminate.
Defined.

(** X8: unlike [findCommonPrefix], [findMajorityPrefix] depends on the order
    of the filenames: among candidates of equal match count the first one
    tried wins. *)
Theorem findMajorityPrefix_depends_on_order :
  ~ (forall l1 l2, Permutation l1 l2 -> findMajorityPrefix l1 = findMajorityPrefix l2).
Proof.
  intro H.
  specialize (H [B "aaa-x1"; B "aaa-x2"; B "bbb-y1"; B "bbb-y2"]
                [B "bbb-y1"; B "bbb-y2"; B "aaa-x1"; B "aaa-x2"]).
  assert (HP : Permutation [B "aaa-x1"; B "aaa-x2"; B "bbb-y1"; B "bbb-y2"]
                           [B "bbb-y1"; B "bbb-y2"; B "aaa-x1"; B "aaa-x2"]).
  { change (Permutation ([B "aaa-x1"; B "aaa-x2"] ++ [B "bbb-y1"; B "bbb-y2"])
                        ([B "bbb-y1"; B "bbb-y2"] ++ [B "aaa-x1"; B "aaa-x2"])).
    apply Permutation_app_comm. }
  specialize (H HP). vm_compute in H. discriminate H.
Qed.

(** X9: a prefix detected for a group (lines 210-218) has whitespace-trimmed
    length at least 3, the group has at least 2 filenames, and at least 2 of
    them start with the prefix. *)
Theorem detectPrefix_usable (filenames : list bytes) (prefix : bytes) :
  detectPrefix filenames = Some prefix ->
  3 <= length (TrimSpace prefix)
  /\ 2 <= length filenames
  /\ 2 <= matchCountOf filenames prefix.
Proof.
  unfold detectPrefix.
  destruct (bytes_eqb (findCommonPrefix filenames) []
            || (length (TrimSpace (findCommonPrefix filenames)) <? 3)) eqn:E1.
  - destruct (bytes_eqb (findMajorityPrefix filenames) []
              || (length (TrimSpace (findMajorityPrefix filenames)) <? 3)) eqn:E2;
      [discriminate|].
    intro H. injection H as <-.
    apply orb_false_iff in E2 as [E2 E3]. apply bytes_eqb_neq in E2. apply Nat.ltb_ge in E3.
    destruct (majority_result_count filenames E2) as [_ H2].
    pose proof (matchCountOf_le_length filenames (findMajorityPrefix filenames)). lia.
  - intro H. injection H as <-.
    apply orb_false_iff in E1 as [E1 E3]. apply bytes_eqb_neq in E1. apply Nat.ltb_ge in E3.
    assert (Hlen : 2 <= length filenames).
    { destruct filenames as [|a [|b l]]; simpl; try lia; contradiction E1; reflexivity. }
    split; [exact E3 | split; [exact Hlen|]].
    assert (Hall : matchCountOf filenames (findCommonPrefix filenames) = length filenames).
    { unfold matchCountOf. f_equal. apply forallb_filter_id. apply forallb_forall.
      intros s Hs. apply HasPrefix_iff.
      rewrite (findCommonPrefix_unfold filenames Hlen).
      eapply isPrefixOf_trans; [apply trimAtSeparator_prefix | apply rawPrefix_common; exact Hs]. }
    lia.
Qed.

Lemma detectPrefix_usable_witness :
  3 <= length (TrimSpace (B "Artist-"))
  /\ 2 <= length (map unixBase artistFiles)
  /\ 2 <= matchCountOf (map unixBase artistFiles) (B "Artist-").
Proof.
  apply (detectPrefix_usable (map unixBase artistFiles) (B "Artist-")).
  reflexivity.
Defined.

(** * Further properties of the rename plan and of the driver *)

(** [strings.TrimSpace] keeps a contiguous piece of its argument. *)
Lemma TrimLeftSpace_suffix_bounded (n : nat) :
  forall s, length s <= n -> exists a, s = a ++ TrimLeftSpace s.
Proof.
  induction n as [|n IH]; intros s Hlen.
  - destruct s; [exists []; reflexivity | simpl in Hlen; lia].
  - destruct s as [|b0 t0]; [exists []; reflexivity|].
    simpl in Hlen. cbn [TrimLeftSpace].
    destruct (isAsciiSpace b0).
    + destruct (IH t0) as [a Ha]; [lia|]. exists (b0 :: a). simpl. f_equal. exact Ha.
    + destruct t0 as [|b1 t1]; [exists []; reflexivity|]. simpl in Hlen.
      destruct (isSpace2 b0 b1).
      * destruct (IH t1) as [a Ha]; [lia|]. exists (b0 :: b1 :: a). simpl. do 2 f_equal. exact Ha.
      * destruct t1 as [|b2 t2]; [exists []; reflexivity|]. simpl in Hlen.
        destruct (isSpace3 b0 b1 b2); [|exists []; reflexivity].
        destruct (IH t2) as [a Ha]; [lia|]. exists (b0 :: b1 :: b2 :: a). simpl. do 3 f_equal. exact Ha.
Qed.

Lemma trimRevSpace_suffix_bounded (n : nat) :
  forall r, length r <= n -> exists a, r = a ++ trimRevSpace r.
Proof.
  induction n as [|n IH]; intros r Hlen.
  - destruct r; [exists []; reflexivity | simpl in Hlen; lia].
  - destruct r as [|b0 t0]; [exists []; reflexivity|].
    simpl in Hlen. cbn [trimRevSpace].
    destruct (isAsciiSpace b0).
    + destruct (IH t0) as [a Ha]; [lia|]. exists (b0 :: a). simpl. f_equal. exact Ha.
    + destruct t0 as [|b1 t1]; [exists []; reflexivity|]. simpl in Hlen.
      destruct (isSpace2 b1 b0).
      * destruct (IH t1) as [a Ha]; [lia|]. exists (b0 :: b1 :: a). simpl. do 2 f_equal. exact Ha.
      * destruct t1 as [|b2 t2]; [exists []; reflexivity|]. simpl in Hlen.
        destruct (isSpace3 b2 b1 b0); [|exists []; reflexivity].
        destruct (IH t2) as [a Ha]; [lia|]. exists (b0 :: b1 :: b2 :: a). simpl. do 3 f_equal. exact Ha.
Qed.

Lemma TrimSpace_within (s : bytes) : exists a b, s = a ++ TrimSpace s ++ b.
Proof.
  destruct (TrimLeftSpace_suffix_bounded (length s) s (le_n _)) as [a Ha].
  destruct (trimRevSpace_suffix_bounded (length (rev (TrimLeftSpace s)))
                                        (rev (TrimLeftSpace s)) (le_n _)) as [b Hb].
  exists a, (rev b). unfold TrimSpace, TrimRightSpace.
  rewrite <- rev_app_distr, <- Hb, rev_involutive. exact Ha.
Qed.

Lemma TrimSpace_shorter (s : bytes) : TrimSpace s <> s -> length (TrimSpace s) < length s.
Proof.
  intro Hne. destruct (TrimSpace_within s) as (a & b & H).
  assert (Hlen : length s = length a + (length (TrimSpace s) + length b))
    by (rewrite H at 1; rewrite !length_app; reflexivity).
  destruct a as [|x a]; [|simpl in Hlen; lia].
  destruct b as [|y b]; [|rewrite length_cons in Hlen; lia].
  simpl in H. rewrite app_nil_r in H. congruence.
Qed.

Section PlanOrder.

Variable Base : bytes -> bytes.
Variable Join : bytes -> bytes -> bytes.

Lemma planned_paths (dir prefix : bytes) (files : list bytes) :
  map OldPath (fst (buildPlans Base Join dir prefix files))
  = filter (fun file => negb (bytes_eqb (newNameOf Base prefix file) [])
                        && negb (bytes_eqb (Base file) (newNameOf Base prefix file))) files.
Proof.
  unfold buildPlans. rewrite buildPlans_fold. simpl.
  induction files as [|file files IH]; [reflexivity|].
  simpl. rewrite map_app, IH. unfold planStep, newNameOf.
  destruct (bytes_eqb (TrimSpace (TrimPrefix (Base file) prefix)) []); [reflexivity|].
  destruct (bytes_eqb (Base file) (TrimSpace (TrimPrefix (Base file) prefix))); reflexivity.
Qed.

Lemma plans_and_warnings_count (dir prefix : bytes) (files : list bytes) :
  length (fst (buildPlans Base Join dir prefix files))
  + length (snd (buildPlans Base Join dir prefix files)) <= length files.
Proof.
  unfold buildPlans. rewrite buildPlans_fold. simpl.
  induction files as [|file files IH]; [simpl; lia|].
  simpl. rewrite !length_app.
  assert (Hone : length (fst (planStep Base Join dir prefix ([], []) file))
                 + length (snd (planStep Base Join dir prefix ([], []) file)) <= 1).
  { unfold planStep.
    destruct (bytes_eqb (TrimSpace (TrimPrefix (Base file) prefix)) []); [simpl; lia|].
    destruct (negb (bytes_eqb (Base file) (TrimSpace (TrimPrefix (Base file) prefix))));
      simpl; lia. }
  lia.
Qed.

(** X10: the plan lists files in the order of the input and at most once
    each: its old paths are the input files that get a new name, so a
    group without repeated paths gives a plan without repeated old paths;
    plan entries and warnings together are no more than the files. *)
Theorem plan_follows_file_order (dir prefix : bytes) (files : list bytes) :
  map OldPath (fst (buildPlans Base Join dir prefix files))
  = filter (fun file => negb (bytes_eqb (newNameOf Base prefix file) [])
                        && negb (bytes_eqb (Base file) (newNameOf Base prefix file))) files
  /\ (NoDup files -> NoDup (map OldPath (fst (buildPlans Base Join dir prefix files))))
  /\ length (fst (buildPlans Base Join dir prefix files))
     + length (snd (buildPlans Base Join dir prefix files)) <= length files.
Proof.
  split; [apply planned_paths | split; [|apply plans_and_warnings_count]].
  intro Hnd. rewrite planned_paths. apply NoDup_filter. exact Hnd.
Qed.

(** X11: in every plan entry the new filename is a contiguous piece of the
    old filename and strictly shorter than it; when the old filename starts
    with the prefix, that piece lies after the prefix. *)
Theorem plan_new_name_within_old (dir prefix : bytes) (files : list bytes) (e : RenamePlan) :
  In e (fst (buildPlans Base Join dir prefix files)) ->
  (exists a b, OldName e = a ++ NewName e ++ b)
  /\ length (NewName e) < length (OldName e)
  /\ (HasPrefix (OldName e) prefix = true ->
      exists a b, OldName e = prefix ++ a ++ NewName e ++ b).
Proof.
  intro He. apply in_plans in He as (file & _ & _ & Hne & ->). simpl.
  unfold newNameOf in *. unfold TrimPrefix in *.
  destruct (HasPrefix (Base file) prefix) eqn:E.
  - apply HasPrefix_iff in E as [t Ht].
    assert (Hrest : slice_from (Base file) (length prefix) = t).
    { unfold slice_from. rewrite Ht, skipn_app, Nat.sub_diag, skipn_all. reflexivity. }
    rewrite Hrest in *.
    destruct (TrimSpace_within t) as (a & b & Hab).
    assert (Hold : Base file = prefix ++ a ++ TrimSpace t ++ b) by (rewrite Ht at 1; rewrite Hab at 1; reflexivity).
    split; [|split].
    + exists (prefix ++ a), b. rewrite <- app_assoc. exact Hold.
    + assert (Hlen : length (Base file)
                     = length prefix + (length a + (length (TrimSpace t) + length b)))
        by (rewrite Hold at 1; rewrite !length_app; reflexivity).
      destruct (Nat.eq_dec (length (TrimSpace t)) (length (Base file))) as [Heq|]; [|lia].
      exfalso. apply Hne.
      destruct prefix as [|x prefix]; [|simpl in Hlen; lia].
      destruct a as [|y a]; [|simpl in Hlen; lia].
      destruct b as [|z b]; [|rewrite length_cons in Hlen; simpl in Hlen; lia].
      simpl in Hold. rewrite app_nil_r in Hold. congruence.
    + intros _. exists a, b. exact Hold.
  - split; [apply TrimSpace_within | split; [|discriminate]].
    apply TrimSpace_shorter. exact Hne.
Qed.

End PlanOrder.

Lemma plan_new_name_within_old_witness :
  (exists a b, B " x.mp3" = a ++ B "x.mp3" ++ b)
  /\ length (B "x.mp3") < length (B " x.mp3")
  /\ (HasPrefix (B " x.mp3") (B "Artist-") = true ->
      exists a b, B " x.mp3" = B "Artist-" ++ a ++ B "x.mp3" ++ b).
Proof.
  apply (plan_new_name_within_old unixBase slashJoin (B "/m") (B "Artist-") artistFiles
           {| OldPath := B "/m/ x.mp3"; NewPath := B "/m/x.mp3";
              OldName := B " x.mp3"; NewName := B "x.mp3" |}).
  vm_compute. right. right. left. reflexivity.
Defined.

Section DriverProperties.

Variable Base : bytes -> bytes.
Variable Join : bytes -> bytes -> bytes.
Variable FS : Type.
Variable osRename : FS -> bytes -> bytes -> FS * bool.

Lemma renameLoop_unfold (plans : list RenamePlan) (fs : FS) (n : nat) (out : list output) :
  fold_left (renameStep osRename) plans (fs, n, out)
  = (fold_left (fun fs plan => fst (osRename fs (OldPath plan) (NewPath plan))) plans fs,
     n + length (filter snd (renameOutcomes osRename fs plans)),
     out ++ map (fun r => RenameFailed (OldName (fst r)))
                (filter (fun r => negb (snd r)) (renameOutcomes osRename fs plans))).
Proof.
  revert fs n out; induction plans as [|plan plans IH]; intros fs n out; simpl.
  - rewrite Nat.add_0_r, app_nil_r. reflexivity.
  - destruct (osRename fs (OldPath plan) (NewPath plan)) as [fs' ok] eqn:E.
    destruct ok; simpl; rewrite IH; simpl.
    + f_equal. f_equal. lia.
    + rewrite <- app_assoc. reflexivity.
Qed.

Lemma renameOutcomes_plans (plans : list RenamePlan) (fs : FS) :
  map fst (renameOutcomes osRename fs plans) = plans.
Proof.
  revert fs; induction plans as [|plan plans IH]; intro fs; simpl; [reflexivity|].
  destruct (osRename fs (OldPath plan) (NewPath plan)) as [fs' ok]. simpl.
  f_equal. apply IH.
Qed.

(** X12: executing a plan calls [os.Rename] for every entry, in order,
    whether or not earlier calls failed; it prints one failure line for each
    failed call and then a summary whose success count, added to the number
    of failures, is the number of entries. *)
Theorem executePlans_attempts_every_entry (fs : FS) (plans : list RenamePlan) :
  fst (executePlans osRename fs plans)
  = fold_left (fun fs plan => fst (osRename fs (OldPath plan) (NewPath plan))) plans fs
  /\ snd (executePlans osRename fs plans)
     = map (fun r => RenameFailed (OldName (fst r)))
           (filter (fun r => negb (snd r)) (renameOutcomes osRename fs plans))
       ++ [RenamedSummary (length (filter snd (renameOutcomes osRename fs plans)))
                          (length plans)]
  /\ map fst (renameOutcomes osRename fs plans) = plans
  /\ length (filter snd (renameOutcomes osRename fs plans))
     + length (filter (fun r => negb (snd r)) (renameOutcomes osRename fs plans))
     = length plans.
Proof.
  unfold executePlans. rewrite renameLoop_unfold. simpl.
  split; [reflexivity | split; [reflexivity | split; [apply renameOutcomes_plans|]]].
  rewrite <- (renameOutcomes_plans plans fs) at 3. rewrite length_map.
  induction (renameOutcomes osRename fs plans) as [|[p ok] l IH]; [reflexivity|].
  simpl. destruct ok; simpl; lia.
Qed.

(** X13: [processDirectory] leaves the file system as it found it in a dry
    run, and, without [-y], when no line can be read from the input or the
    line read is not an affirmative answer. *)
Theorem no_rename_without_consent
        (dir : bytes) (files : list bytes) (dryRun autoYes : bool) (stdin : bytes) (fs : FS) :
  dryRun = true
  \/ (autoYes = false
      /\ (snd (ReadString x0a stdin) = false
          \/ isAffirmative (fst (ReadString x0a stdin)) = false)) ->
  fs_after (processDirectory Base Join osRename dir files dryRun autoYes stdin fs) = fs.
Proof.
  intro H. unfold processDirectory.
  destruct (length files <? 2); [reflexivity|].
  destruct (detectPrefix (map Base files)) as [prefix|]; [|reflexivity].
  destruct (buildPlans Base Join dir prefix files) as [plans warnings].
  destruct (length plans =? 0); [reflexivity|].
  destruct H as [-> | [-> H]]; [reflexivity|].
  destruct dryRun; [reflexivity|].
  unfold confirmAndRun. simpl.
  destruct (ReadString x0a stdin) as [response ok]. simpl in H.
  destruct ok; [|reflexivity].
  destruct H as [H | H]; [discriminate H|]. rewrite H. reflexivity.
Qed.

(** X14: the only error [processDirectory] returns is a failed read of the
    answer: it then ran without dry run and without [-y], the input held no
    complete line, and the file system is unchanged.  A failing rename is
    not an error of the call. *)
Theorem error_only_from_failed_read
        (dir : bytes) (files : list bytes) (dryRun autoYes : bool) (stdin : bytes) (fs : FS) :
  err_nil (processDirectory Base Join osRename dir files dryRun autoYes stdin fs) = false ->
  dryRun = false /\ autoYes = false /\ snd (ReadString x0a stdin) = false
  /\ fs_after (processDirectory Base Join osRename dir files dryRun autoYes stdin fs) = fs.
Proof.
  unfold processDirectory.
  destruct (length files <? 2); [discriminate|].
  destruct (detectPrefix (map Base files)) as [prefix|]; [|discriminate].
  destruct (buildPlans Base Join dir prefix files) as [plans warnings].
  destruct (length plans =? 0); [discriminate|].
  destruct dryRun; [discriminate|].
  unfold confirmAndRun. destruct autoYes; simpl.
  - destruct (executePlans osRename fs plans). discriminate.
  - destruct (ReadString x0a stdin) as [response ok]. destruct ok; simpl.
    + destruct (isAffirmative response); simpl; [|discriminate].
      destruct (executePlans osRename fs plans). discriminate.
    + auto.
Qed.

(** X15: in a dry run and with [-y] the input is never consulted: the
    outcome is the same whatever the input holds. *)
Theorem input_ignored_in_dry_run_and_with_yes
        (dir : bytes) (files : list bytes) (dryRun autoYes : bool)
        (stdin stdin' : bytes) (fs : FS) :
  dryRun = true \/ autoYes = true ->
  processDirectory Base Join osRename dir files dryRun autoYes stdin fs
  = processDirectory Base Join osRename dir files dryRun autoYes stdin' fs.
Proof.
  intro H. unfold processDirectory.
  destruct (length files <? 2); [reflexivity|].
  destruct (detectPrefix (map Base files)) as [prefix|]; [|reflexivity].
  destruct (buildPlans Base Join dir prefix files) as [plans warnings].
  destruct (length plans =? 0); [reflexivity|].
  destruct dryRun; [reflexivity|].
  destruct H as [H | ->]; [discriminate H | reflexivity].
Qed.

End DriverProperties.

Lemma no_rename_without_consent_witness :
  fs_after (processDirectory unixBase slashJoin logRename (B "/m") artistFiles
                             false false (B "y") [])
  = [].
Proof.
  apply (no_rename_without_consent unixBase slashJoin renameLog logRename
           (B "/m") artistFiles false false (B "y") []).
  right. split; [reflexivity | left; reflexivity].
Defined.

Lemma error_only_from_failed_read_witness :
  false = false /\ false = false /\ snd (ReadString x0a (B "y")) = false
  /\ fs_after (processDirectory unixBase slashJoin logRename (B "/m") artistFiles
                                false false (B "y") [])
     = [].
Proof.
  apply (error_only_from_failed_read unixBase slashJoin renameLog logRename
           (B "/m") artistFiles false false (B "y") []).
  reflexivity.
Defined.

Lemma input_ignored_in_dry_run_and_with_yes_witness :
  processDirectory unixBase slashJoin logRename (B "/m") artistFiles true false (B "y") []
  = processDirectory unixBase slashJoin logRename (B "/m") artistFiles true false [] [].
Proof.
  apply (input_ignored_in_dry_run_and_with_yes unixBase slashJoin renameLog logRename
           (B "/m") artistFiles true false (B "y") [] []).
  left. reflexivity.
Defined.

(** * Further properties of the threshold *)

Local Open Scope Z_scope.

Lemma round64_exact (m e : Z) :
  0 <= m < 2 ^ 53 -> round64 m e = {| mant := m; expo := e |}.
Proof.
  intros [Hlo Hhi]. unfold round64.
  destruct (m =? 0) eqn:E0; [reflexivity|].
  apply Z.eqb_neq in E0.
  assert (Hlog : Z.log2 m < 53) by (apply Z.log2_lt_pow2; lia).
  replace (Z.log2 m + 1 - 53 <=? 0) with true by (symmetry; apply Z.leb_le; lia).
  reflexivity.
Qed.

(** The product of line 91, truncated: the exact [n * 0.7] scaled by 2^53
    is [n * 6305039478318694]; its rounding [F] is within half a unit of the
    last place, and [int] takes the floor of [F / 2^53]. *)
Lemma int_of_product (n : Z) :
  0 < n < 2 ^ 51 ->
  exists F h,
    int_of_float64 (float64_mul (float64_of_int n) float64_0_7) = F / 2 ^ 53
    /\ 0 < h
    /\ 2 * Z.abs (F - n * 6305039478318694) <= h
    /\ (h = 1 \/ 2 ^ 52 * h <= F).
Proof.
  intros [Hlo Hhi].
  unfold float64_of_int, float64_mul.
  rewrite (round64_exact n 0) by lia. cbn [mant expo float64_0_7].
  set (X := n * 6305039478318694).
  assert (HX : 0 < X < 2 ^ 104) by (unfold X; lia).
  destruct (round64_nearest X (0 + -53) (proj1 HX)) as (Hsh & Hm & Herr & Hnorm).
  destruct (round64 X (0 + -53)) as [mf ef]. cbn [mant expo] in *.
  set (sh := ef - (0 + -53)) in *.
  assert (HP : 0 < 2 ^ sh) by (apply Z.pow_pos_nonneg; lia).
  assert (Hlt : sh < 53).
  { destruct Hnorm as [-> | Hnorm]; [lia|].
    destruct (Z.lt_ge_cases sh 53) as [|Hge]; [assumption|]. exfalso.
    assert (HP53 : 2 ^ 53 <= 2 ^ sh) by (apply Z.pow_le_mono_r; lia).
    assert (Hmul : 2 ^ 52 * 2 ^ sh <= mf * 2 ^ sh) by (apply Z.mul_le_mono_nonneg_r; lia).
    lia. }
  exists (mf * 2 ^ sh), (2 ^ sh). split; [|split; [exact HP | split; [exact Herr|]]].
  - unfold int_of_float64. cbn [mant expo].
    replace (0 <=? ef) with false by (symmetry; apply Z.leb_gt; unfold sh in Hlt; lia).
    rewrite Z.shiftr_div_pow2 by (unfold sh in Hlt; lia).
    replace (- ef) with (53 - sh) by (unfold sh; lia).
    replace (2 ^ 53) with (2 ^ (53 - sh) * 2 ^ sh)
      by (rewrite <- Z.pow_add_r by lia; f_equal; lia).
    rewrite Z.div_mul_cancel_r by lia. reflexivity.
  - destruct Hnorm as [H0 | Hnorm].
    + left. rewrite H0. reflexivity.
    + right. apply Z.mul_le_mono_nonneg_r; lia.
Qed.

(** X16: for fewer than 2^51 filenames, the threshold of lines 91-94 is
    never above [max(2, floor(0.7 n))] and at most one below it: the
    float64 product can lose one file of the 70%, never more, and never
    asks for more than 70%. *)
Theorem thresholdOf_within_one_of_exact (n : nat) :
  Z.of_nat n < 2 ^ 51 ->
  Z.max 2 (7 * Z.of_nat n / 10 - 1) <= thresholdOf n <= Z.max 2 (7 * Z.of_nat n / 10).
Proof.
  intro Hn. unfold thresholdOf.
  destruct (Z.eq_dec (Z.of_nat n) 0) as [E0 | Hpos].
  - rewrite E0. vm_compute. split; discriminate.
  - destruct (int_of_product (Z.of_nat n)) as (F & h & -> & Hh & Herr & Hnorm); [lia|].
    set (m := Z.of_nat n) in *.
    assert (Hm : 0 < m) by (unfold m; lia).
    pose proof (Z.div_mod F (2 ^ 53) ltac:(lia)) as HF.
    pose proof (Z.mod_pos_bound F (2 ^ 53) ltac:(lia)) as HFr.
    pose proof (Z.div_mod (7 * m) 10 ltac:(lia)) as HE.
    pose proof (Z.mod_pos_bound (7 * m) 10 ltac:(lia)) as HEr.
    set (t := F / 2 ^ 53) in *. set (q := 7 * m / 10) in *.
    assert (Hbounds : q - 1 <= t <= q).
    { change (2 ^ 53) with 9007199254740992 in *.
      change (2 ^ 52) with 4503599627370496 in *.
      change (2 ^ 51) with 2251799813685248 in *.
      destruct Hnorm as [-> | Hnorm]; lia. }
    destruct (t <? 2) eqn:Et; [apply Z.ltb_lt in Et | apply Z.ltb_ge in Et]; lia.
Qed.

Lemma thresholdOf_within_one_of_exact_witness :
  Z.max 2 (7 * Z.of_nat 90 / 10 - 1) <= thresholdOf 90 <= Z.max 2 (7 * Z.of_nat 90 / 10).
Proof.
  apply (thresholdOf_within_one_of_exact 90). vm_compute. reflexivity.
Defined.

Local Close Scope Z_scope.

(** * Properties of the grouping by directory *)

Lemma mapLookup_store (m : dirMap) (k k' : bytes) (v : list bytes) :
  mapLookup (mapStore m k v) k' = if bytes_eqb k k' then v else mapLookup m k'.
Proof.
  induction m as [|[k0 v0] m IH]; simpl; [reflexivity|].
  destruct (bytes_eqb k0 k) eqn:E; simpl.
  - apply bytes_eqb_eq in E. subst k0.
    destruct (bytes_eqb k k'); reflexivity.
  - rewrite IH. destruct (bytes_eqb k0 k') eqn:E'; [|reflexivity].
    apply bytes_eqb_eq in E'. subst k'. rewrite bytes_eqb_neq in E.
    replace (bytes_eqb k k0) with false; [reflexivity|].
    symmetry. apply bytes_eqb_neq. congruence.
Qed.

Lemma mapStore_keys (m : dirMap) (k k' : bytes) (v : list bytes) :
  In k' (map fst (mapStore m k v)) <-> k' = k \/ In k' (map fst m).
Proof.
  induction m as [|[k0 v0] m IH]; simpl.
  - split; intros [H | H]; auto.
  - destruct (bytes_eqb k0 k) eqn:E; simpl.
    + apply bytes_eqb_eq in E. subst k0. split; [intros [H | H]; auto | intros [H | [H | H]]; auto].
    + rewrite IH. split; [intros [H | [H | H]]; auto | intros [H | [H | H]]; auto].
Qed.

Lemma mapStore_NoDup (m : dirMap) (k : bytes) (v : list bytes) :
  NoDup (map fst m) -> NoDup (map fst (mapStore m k v)).
Proof.
  induction m as [|[k0 v0] m IH]; simpl; intro H.
  - constructor; [intros [] | constructor].
  - inversion H as [|x l Hnotin Hnd]; subst.
    destruct (bytes_eqb k0 k) eqn:E; simpl.
    + constructor; assumption.
    + constructor; [|apply IH; exact Hnd].
      intro Hin. apply mapStore_keys in Hin as [Hin | Hin]; [|contradiction].
      apply bytes_eqb_neq in E. congruence.
Qed.

Lemma mapStore_append_perm (m : dirMap) (k file : bytes) :
  Permutation (concat (map snd (mapStore m k (mapLookup m k ++ [file]))))
              (concat (map snd m) ++ [file]).
Proof.
  induction m as [|[k0 v0] m IH]; simpl; [apply Permutation_refl|].
  destruct (bytes_eqb k0 k); simpl.
  - rewrite <- !app_assoc. apply Permutation_app_head. apply Permutation_app_comm.
  - rewrite <- app_assoc. apply Permutation_app_head. exact IH.
Qed.

Lemma mapLookup_In (m : dirMap) (k : bytes) (v : list bytes) :
  NoDup (map fst m) -> In (k, v) m -> mapLookup m k = v.
Proof.
  induction m as [|[k0 v0] m IH]; simpl; intros Hnd Hin; [destruct Hin|].
  inversion Hnd as [|x l Hnotin Hnd']; subst.
  destruct Hin as [Heq | Hin].
  - injection Heq as -> ->. rewrite bytes_eqb_refl. reflexivity.
  - destruct (bytes_eqb k0 k) eqn:E.
    + apply bytes_eqb_eq in E. subst k0. exfalso. apply Hnotin.
      apply (in_map fst) in Hin. exact Hin.
    + apply IH; assumption.
Qed.

Section GroupingProperties.

Variable Dir : bytes -> bytes.

Lemma grouping_fold (files : list bytes) (m : dirMap) :
  let groups :=
    fold_left (fun groups file =>
                 let dir := Dir file in
                 mapStore groups dir (mapLookup groups dir ++ [file])) files m in
  (forall dir, mapLookup groups dir
               = mapLookup m dir ++ filter (fun file => bytes_eqb (Dir file) dir) files)
  /\ (forall dir, In dir (map fst groups)
                  <-> In dir (map fst m) \/ exists file, In file files /\ Dir file = dir)
  /\ (NoDup (map fst m) -> NoDup (map fst groups))
  /\ Permutation (concat (map snd groups)) (concat (map snd m) ++ files).
Proof.
  revert m; induction files as [|file files IH]; intro m; simpl.
  - split; [intro dir; symmetry; apply app_nil_r | split; [|split]].
    + intro dir. split; [auto | intros [H | (f & [] & _)]; exact H].
    + auto.
    + rewrite app_nil_r. apply Permutation_refl.
  - destruct (IH (mapStore m (Dir file) (mapLookup m (Dir file) ++ [file])))
      as (Hlook & Hkeys & Hnd & Hperm).
    split; [|split; [|split]].
    + intro dir. rewrite Hlook, mapLookup_store.
      destruct (bytes_eqb (Dir file) dir) eqn:E; [|reflexivity].
      apply bytes_eqb_eq in E. rewrite E, <- app_assoc. reflexivity.
    + intro dir. rewrite Hkeys, mapStore_keys. split.
      * intros [[H | H] | (f & Hf & Hd)].
        -- right. exists file. split; [left; reflexivity | congruence].
        -- left. exact H.
        -- right. exists f. split; [right; exact Hf | exact Hd].
      * intros [H | (f & [Hf | Hf] & Hd)].
        -- left. right. exact H.
        -- left. left. congruence.
        -- right. exists f. split; assumption.
    + intro H. apply Hnd, mapStore_NoDup, H.
    + eapply Permutation_trans; [exact Hperm|].
      eapply Permutation_trans; [apply Permutation_app_tail, mapStore_append_perm|].
      rewrite <- app_assoc. apply Permutation_refl.
Qed.

(** X17: looking a directory up in the result of [groupFilesByDirectory]
    gives the files of that directory, in the order of the input; a
    directory holding none of the files gives the empty list. *)
Theorem group_lookup (files : list bytes) (dir : bytes) :
  mapLookup (groupFilesByDirectory Dir files) dir
  = filter (fun file => bytes_eqb (Dir file) dir) files.
Proof.
  unfold groupFilesByDirectory.
  destruct (grouping_fold files []) as (Hlook & _). exact (Hlook dir).
Qed.

(** X18: the keys of the result of [groupFilesByDirectory] are the
    directories of the files, each once; the groups together hold the files
    of the input, none lost, repeated or added; and no group is empty. *)
Theorem groups_partition_files (files : list bytes) :
  NoDup (map fst (groupFilesByDirectory Dir files))
  /\ (forall dir, In dir (map fst (groupFilesByDirectory Dir files))
                  <-> exists file, In file files /\ Dir file = dir)
  /\ Permutation (concat (map snd (groupFilesByDirectory Dir files))) files
  /\ (forall dir group, In (dir, group) (groupFilesByDirectory Dir files) -> group <> []).
Proof.
  unfold groupFilesByDirectory.
  destruct (grouping_fold files []) as (Hlook & Hkeys & Hnd & Hperm).
  simpl in *. specialize (Hnd (NoDup_nil _)).
  split; [exact Hnd | split; [|split; [exact Hperm|]]].
  - intro dir. rewrite Hkeys. split; [intros [[] | H]; exact H | auto].
  - intros dir group Hin Hempty. subst group.
    assert (Hkey : In dir (map fst (fold_left
              (fun groups file => mapStore groups (Dir file) (mapLookup groups (Dir file) ++ [file]))
              files []))) by (apply (in_map fst) in Hin; exact Hin).
    apply Hkeys in Hkey as [[] | (f & Hf & Hd)].
    pose proof (mapLookup_In _ dir [] Hnd Hin) as Hl.
    rewrite Hlook in Hl. simpl in Hl.
    assert (Hfin : In f (filter (fun file => bytes_eqb (Dir file) dir) files)).
    { apply filter_In. split; [exact Hf | apply bytes_eqb_eq; exact Hd]. }
    rewrite Hl in Hfin. destruct Hfin.
Qed.

End GroupingProperties.

(** * Properties of the file collection *)

Lemma node_nested_ind (P : node -> Prop) :
  (forall name, P (FileNode name)) ->
  (forall name, P (BrokenNode name)) ->
  (forall name unreadable entries, Forall P entries -> P (DirNode name unreadable entries)) ->
  forall n, P n.
Proof.
  intros Hf Hb Hd. fix IH 1. intros [name | name unreadable entries | name].
  - apply Hf.
  - apply Hd. revert entries. fix IHl 1. intros [|child rest].
    + constructor.
    + constructor; [apply IH | apply IHl].
  - apply Hb.
Qed.

Section WalkerProperties.

Variable lower : bytes -> bytes.
Variable Base : bytes -> bytes.
Variable Join : bytes -> bytes -> bytes.
Variable excludeDirs : list bytes.

Lemma walk_dir (extMap : list bytes) (path name : bytes) (unreadable : bool)
      (entries : list node) (files : list bytes) :
  walk lower Base Join excludeDirs extMap path (DirNode name unreadable entries) files
  = let (files1, err1) := visit lower Base excludeDirs extMap files path true unreadable in
    match unreadable, err1 with
    | false, ErrNil => walkEntries lower Base Join excludeDirs extMap path entries files1
    | _, _ => (files1, err1)
    end.
Proof.
  cbn [walk].
  destruct (visit lower Base excludeDirs extMap files path true unreadable) as [files1 err1].
  destruct unreadable; [reflexivity|]. destruct err1; try reflexivity.
  revert files1. induction entries as [|child rest IH]; intro files1; [reflexivity|].
  cbn [walkEntries].
  destruct (walk lower Base Join excludeDirs extMap (Join path (nodeName child)) child files1)
    as [files' err].
  destruct err; [apply IH | | reflexivity].
  destruct child; [reflexivity | apply IH | apply IH].
Qed.

Lemma nodeName_prune (path : bytes) (n : node) :
  nodeName (prune Base Join excludeDirs path n) = nodeName n.
Proof.
  destruct n as [name | name unreadable entries | name]; simpl; try reflexivity.
  destruct (excludedDir Base excludeDirs path); reflexivity.
Qed.

(** Emptying the excluded directories changes nothing of a walk. *)
Lemma walk_prune (extMap : list bytes) (n : node) :
  forall path files,
    walk lower Base Join excludeDirs extMap path (prune Base Join excludeDirs path n) files
    = walk lower Base Join excludeDirs extMap path n files.
Proof.
  induction n as [name | name | name unreadable entries IH] using node_nested_ind;
    intros path files; try reflexivity.
  cbn [prune]. destruct (excludedDir Base excludeDirs path) eqn:Eex.
  - rewrite !walk_dir. unfold visit. unfold excludedDir in Eex.
    destruct unreadable; [reflexivity|]. rewrite Eex. reflexivity.
  - rewrite !walk_dir.
    destruct (visit lower Base excludeDirs extMap files path true unreadable) as [files1 err1].
    destruct unreadable; [reflexivity|]. destruct err1; try reflexivity.
    clear Eex. revert files1. induction IH as [|child rest Hchild _ IHrest]; intro files1;
      [reflexivity|].
    cbn [map walkEntries]. rewrite nodeName_prune, Hchild.
    destruct (walk lower Base Join excludeDirs extMap (Join path (nodeName child)) child files1)
      as [files' err].
    destruct err; [apply IHrest | | reflexivity].
    destruct child as [cname | cname cunreadable centries | cname]; cbn [prune].
    + reflexivity.
    + destruct (excludedDir Base excludeDirs _); apply IHrest.
    + apply IHrest.
Qed.





(** X20: what [collectFiles] returns, files and error alike, does not
    depend on the contents of the excluded directories: it is the same with
    every excluded directory emptied. *)
Theorem collectFiles_ignores_excluded_contents
        (root : bytes) (tree : node) (extensions : list bytes) :
  collectFiles lower Base Join root (prune Base Join excludeDirs root tree)
               excludeDirs extensions
  = collectFiles lower Base Join root tree excludeDirs extensions.
Proof.
  unfold collectFiles. rewrite walk_prune. reflexivity.
Qed.

End WalkerProperties.


(** The cases of [TestCollectFiles] on the tree above. *)
Example collect_audio_excluding_eaDir :
  collectFiles ToLower unixBase slashJoin (B "/music") musicTree [B "@eaDir"] [B "mp3"; B "m4a"]
  = ([B "/music/song1.MP3"; B "/music/subdir/song4.mp3"], true).
Proof. reflexivity. Qed.

Example collect_without_exclusion_meets_the_error :
  collectFiles ToLower unixBase slashJoin (B "/music") musicTree [] []
  = ([], false).
Proof. reflexivity. Qed.
